(** * Interactive black hole: mesh generation, draw submission and the
      inertial camera of [black_hole.py]

    The Python program is embedded shallowly.

    - Python [int] values (loop counters, band and segment counts, vertex
      indices, mouse coordinates) are [Z].
    - Python [float] values are real numbers ([R]); [np.sin], [np.cos] and
      [np.pi] are [sin], [cos] and [PI].  Rounding of binary64 arithmetic is
      outside this model: an equation on coordinates, angles and velocities
      stated over [R] is an equation of exact real arithmetic.
    - The rotation state of the render loop is modelled a second time in
      [Binary64], with the floats of the machine ([PrimFloat]), for the
      properties that depend on how sums and products round.
    - An uncaught exception is the left summand of [result]: the embedded
      code raises [ZeroDivisionError] in a division and [SystemExit] in
      [quit()].
    - The lists that the loops grow with [append] and [extend] are the
      accumulators of [for_each].
    - The fixed-function OpenGL context is an explicit record [gl_state];
      each drawing call logs a [submission] with the state it is issued in. *)

From Stdlib Require Import Reals ZArith List Bool Lia Lra.
From Stdlib Require Floats Uint63.
Import ListNotations.

Open Scope Z_scope.
Open Scope R_scope.

(** ** Python prelude *)

Module Py.

Inductive exn : Type :=
| ZeroDivisionError
| SystemExit.

Definition result (A : Type) : Type := (exn + A)%type.

Definition ok {A : Type} (a : A) : result A := inr a.

Definition raise {A : Type} (e : exn) : result A := inl e.

Definition bind {A B : Type} (m : result A) (k : A -> result B) : result B :=
  match m with
  | inl e => inl e
  | inr a => k a
  end.

(** [range(n)]: the integers [0, 1, ..., n-1]; empty when [n <= 0]. *)
Definition range (n : Z) : list Z :=
  map Z.of_nat (seq 0 (Z.to_nat n)).

(** [a / b] with a float numerator and an [int] denominator. *)
Definition truediv (a : R) (b : Z) : result R :=
  if (b =? 0)%Z then raise ZeroDivisionError else ok (a / IZR b).

(** [a % b] on [int]: the result has the sign of [b], as [Z.modulo]. *)
Definition mod_ (a b : Z) : result Z :=
  if (b =? 0)%Z then raise ZeroDivisionError else ok (a mod b)%Z.

(** [for x in xs: body], the loop variables threaded as [s]. *)
Fixpoint for_each {A S : Type} (xs : list A) (body : A -> S -> result S)
    (s : S) : result S :=
  match xs with
  | [] => ok s
  | x :: xs' => bind (body x s) (for_each xs' body)
  end.

(** Truth value of a float in a condition: [if line_width:]. *)
Definition truthy (x : R) : bool :=
  if Req_dec_T x 0 then false else true.

End Py.

Import Py.

Notation "x <- m ;; k" := (bind m (fun x => k))
  (at level 61, m at next level, right associativity).
Notation "' pat <- m ;; k" := (bind m (fun x => match x with pat => k end))
  (at level 61, pat pattern, m at next level, right associativity).

(** ** Module globals (lines 7-12)

    The functions below read these names from the module scope; the scope
    is the record [globals], and [module_globals] holds the values the
    source assigns. *)

Record ring_kwargs : Type := {
  rk_radius : R;
  rk_thickness : R;
  rk_segments : Z
}.

Record globals : Type := {
  radius : R;
  lat_bands : Z;
  long_bands : Z;
  ring_params : ring_kwargs;
  additional_ring_params : ring_kwargs;
  horizontal_ring_params : ring_kwargs;
  num_stars : Z;
  star_distance : R;
  star_size : R
}.

Definition module_globals : globals :=
  {| radius := 1.5;
     lat_bands := 50;
     long_bands := 50;
     ring_params :=
       {| rk_radius := 1.5; rk_thickness := 0.5; rk_segments := 100 |};
     additional_ring_params :=
       {| rk_radius := 3.0; rk_thickness := 0.2; rk_segments := 100 |};
     horizontal_ring_params :=
       {| rk_radius := 2.2; rk_thickness := 0.2; rk_segments := 100 |};
     num_stars := 150;
     star_distance := 100;
     star_size := 1 |}.

(** ** Mesh generation *)

Definition point : Type := (R * R * R)%type.

(** [create_sphere] (lines 15-32); [radius], [lat_bands] and [long_bands]
    are read from the module scope [g]. *)
Definition create_sphere (g : globals)
  : result (list point * list point * list Z) :=
  let radius := radius g in
  let lat_bands := lat_bands g in
  let long_bands := long_bands g in
  ' (vertices, normals) <-
    for_each (range (lat_bands + 1))
      (fun lat '(vertices, normals) =>
         theta <- truediv (IZR lat * PI) lat_bands ;;
         let sin_theta := sin theta in
         let cos_theta := cos theta in
         for_each (range (long_bands + 1))
           (fun long '(vertices, normals) =>
              phi <- truediv (IZR (long * 2) * PI) long_bands ;;
              let sin_phi := sin phi in
              let cos_phi := cos phi in
              let '(x, y, z) :=
                (cos_phi * sin_theta, cos_theta, sin_phi * sin_theta) in
              ok (vertices ++ [(radius * x, radius * y, radius * z)],
                  normals ++ [(x, y, z)]))
           (vertices, normals))
      ([], []) ;;
  indices <-
    for_each (range lat_bands)
      (fun lat indices =>
         for_each (range long_bands)
           (fun long indices =>
              let first := (lat * (long_bands + 1) + long)%Z in
              let second :=
                (lat * (long_bands + 1) + long + long_bands + 1)%Z in
              ok (indices ++
                  [first; second; first + 1; second; second + 1; first + 1]%Z))
           indices)
      [] ;;
  ok (vertices, normals, indices).

(** [create_ring] (lines 35-44). *)
Definition create_ring (radius thickness : R) (segments : Z)
    (horizontal : bool) : result (list point * list Z) :=
  vertices <-
    for_each (range (segments + 1))
      (fun i vertices =>
         theta <- truediv (IZR (i * 2) * PI) segments ;;
         let '(x, y, z) :=
           if horizontal
           then (radius * cos theta, radius * sin theta, 0)
           else (radius * cos theta, 0, radius * sin theta) in
         ok (vertices ++
             [(x, y, z - thickness / 2); (x, y, z + thickness / 2)]))
      [] ;;
  indices <-
    for_each (range segments)
      (fun i indices =>
         next_i <- mod_ (i + 1) segments ;;
         ok (indices ++
             [i * 2; next_i * 2; next_i * 2 + 1;
              i * 2; next_i * 2 + 1; i * 2 + 1]%Z))
      [] ;;
  ok (vertices, indices).

(** [generate_stars] (lines 63-69).  [np.random.uniform(lo, hi)] is
    [lo + (hi - lo) * u] for the next sample [u] of the generator; the
    generator is the stream [rng] and the count of samples consumed so far
    is threaded with the list. *)
Definition uniform (lo hi u : R) : R := lo + (hi - lo) * u.

Definition generate_stars (g : globals) (rng : nat -> R) : result (list point) :=
  ' (stars, _) <-
    for_each (range (num_stars g))
      (fun _ '(stars, n) =>
         let theta := uniform 0 (PI * 2) (rng n) in
         let phi := uniform 0 PI (rng (S n)) in
         let '(x, y, z) :=
           (sin phi * cos theta, sin phi * sin theta, cos phi) in
         ok (stars ++
             [(star_distance g * x, star_distance g * y, star_distance g * z)],
             S (S n)))
      ([], O) ;;
  ok stars.

(** ** The fixed-function OpenGL context *)

Module GL.

Inductive capability : Type := GL_LIGHTING | GL_DEPTH_TEST.
Inductive client_array : Type := GL_VERTEX_ARRAY | GL_NORMAL_ARRAY.
Inductive primitive : Type := GL_POINTS | GL_TRIANGLES.

Inductive transform : Type :=
| Perspective (fovy aspect near far : R)
| Translate (x y z : R)
| Rotate (angle x y z : R).

Record gl_state : Type := {
  lighting : bool;
  depth_test : bool;
  vertex_array : bool;
  normal_array : bool;
  vertex_pointer : list point;
  normal_pointer : list point;
  color : point;
  line_width : R;
  point_size : R;
  matrix : list transform;
  matrix_stack : list (list transform)
}.

(** One primitive batch handed to the pipeline: what is drawn and the
    state of the context at that moment. *)
Record submission : Type := {
  sub_mode : primitive;
  sub_points : list point;
  sub_indices : list Z;
  sub_state : gl_state
}.

(** The context: its state, the open [glBegin] batch if any, and the
    batches drawn since the last [glClear]. *)
Record gl_ctx : Type := {
  state : gl_state;
  pending : option (primitive * list point);
  drawn : list submission
}.

Definition gl : Type := gl_ctx -> gl_ctx.

Definition on_state (f : gl_state -> gl_state) : gl :=
  fun c => {| state := f (state c); pending := pending c; drawn := drawn c |}.

Definition glEnable (cap : capability) : gl :=
  on_state (fun s =>
    {| lighting := match cap with GL_LIGHTING => true | _ => lighting s end;
       depth_test := match cap with GL_DEPTH_TEST => true | _ => depth_test s end;
       vertex_array := vertex_array s; normal_array := normal_array s;
       vertex_pointer := vertex_pointer s; normal_pointer := normal_pointer s;
       color := color s; line_width := line_width s;
       point_size := point_size s;
       matrix := matrix s; matrix_stack := matrix_stack s |}).

Definition glDisable (cap : capability) : gl :=
  on_state (fun s =>
    {| lighting := match cap with GL_LIGHTING => false | _ => lighting s end;
       depth_test := match cap with GL_DEPTH_TEST => false | _ => depth_test s end;
       vertex_array := vertex_array s; normal_array := normal_array s;
       vertex_pointer := vertex_pointer s; normal_pointer := normal_pointer s;
       color := color s; line_width := line_width s;
       point_size := point_size s;
       matrix := matrix s; matrix_stack := matrix_stack s |}).

Definition set_client_state (a : client_array) (b : bool) : gl :=
  on_state (fun s =>
    {| lighting := lighting s; depth_test := depth_test s;
       vertex_array := match a with GL_VERTEX_ARRAY => b | _ => vertex_array s end;
       normal_array := match a with GL_NORMAL_ARRAY => b | _ => normal_array s end;
       vertex_pointer := vertex_pointer s; normal_pointer := normal_pointer s;
       color := color s; line_width := line_width s;
       point_size := point_size s;
       matrix := matrix s; matrix_stack := matrix_stack s |}).

Definition glEnableClientState (a : client_array) : gl := set_client_state a true.
Definition glDisableClientState (a : client_array) : gl := set_client_state a false.

Definition glVertexPointerf (buf : list point) : gl :=
  on_state (fun s =>
    {| lighting := lighting s; depth_test := depth_test s;
       vertex_array := vertex_array s; normal_array := normal_array s;
       vertex_pointer := buf; normal_pointer := normal_pointer s;
       color := color s; line_width := line_width s;
       point_size := point_size s;
       matrix := matrix s; matrix_stack := matrix_stack s |}).

Definition glNormalPointerf (buf : list point) : gl :=
  on_state (fun s =>
    {| lighting := lighting s; depth_test := depth_test s;
       vertex_array := vertex_array s; normal_array := normal_array s;
       vertex_pointer := vertex_pointer s; normal_pointer := buf;
       color := color s; line_width := line_width s;
       point_size := point_size s;
       matrix := matrix s; matrix_stack := matrix_stack s |}).

Definition glColor3f (rgb : point) : gl :=
  on_state (fun s =>
    {| lighting := lighting s; depth_test := depth_test s;
       vertex_array := vertex_array s; normal_array := normal_array s;
       vertex_pointer := vertex_pointer s; normal_pointer := normal_pointer s;
       color := rgb; line_width := line_width s;
       point_size := point_size s;
       matrix := matrix s; matrix_stack := matrix_stack s |}).

Definition glLineWidth (w : R) : gl :=
  on_state (fun s =>
    {| lighting := lighting s; depth_test := depth_test s;
       vertex_array := vertex_array s; normal_array := normal_array s;
       vertex_pointer := vertex_pointer s; normal_pointer := normal_pointer s;
       color := color s; line_width := w;
       point_size := point_size s;
       matrix := matrix s; matrix_stack := matrix_stack s |}).

Definition glPointSize (w : R) : gl :=
  on_state (fun s =>
    {| lighting := lighting s; depth_test := depth_test s;
       vertex_array := vertex_array s; normal_array := normal_array s;
       vertex_pointer := vertex_pointer s; normal_pointer := normal_pointer s;
       color := color s; line_width := line_width s;
       point_size := w;
       matrix := matrix s; matrix_stack := matrix_stack s |}).

Definition set_matrix (m : list transform) (st : list (list transform))
    (s : gl_state) : gl_state :=
  {| lighting := lighting s; depth_test := depth_test s;
     vertex_array := vertex_array s; normal_array := normal_array s;
     vertex_pointer := vertex_pointer s; normal_pointer := normal_pointer s;
     color := color s; line_width := line_width s;
     point_size := point_size s;
     matrix := m; matrix_stack := st |}.

Definition mult_matrix (t : transform) : gl :=
  on_state (fun s => set_matrix (matrix s ++ [t]) (matrix_stack s) s).

Definition gluPerspective (fovy aspect near far : R) : gl :=
  mult_matrix (Perspective fovy aspect near far).
Definition glTranslatef (x y z : R) : gl := mult_matrix (Translate x y z).
Definition glRotatef (angle x y z : R) : gl := mult_matrix (Rotate angle x y z).

Definition glPushMatrix : gl :=
  on_state (fun s => set_matrix (matrix s) (matrix s :: matrix_stack s) s).

(** On an empty stack [glPopMatrix] sets an error flag and leaves the
    matrix as it is. *)
Definition glPopMatrix : gl :=
  on_state (fun s =>
    match matrix_stack s with
    | [] => s
    | m :: st => set_matrix m st s
    end).

(** [glClear(GL_COLOR_BUFFER_BIT | GL_DEPTH_BUFFER_BIT)]: nothing drawn
    before remains. *)
Definition glClear : gl :=
  fun c => {| state := state c; pending := pending c; drawn := [] |}.

Definition glBegin (mode : primitive) : gl :=
  fun c => {| state := state c; pending := Some (mode, []); drawn := drawn c |}.

Definition glVertex3fv (p : point) : gl :=
  fun c =>
    {| state := state c;
       pending := match pending c with
                  | Some (mode, ps) => Some (mode, ps ++ [p])
                  | None => None
                  end;
       drawn := drawn c |}.

Definition glEnd : gl :=
  fun c =>
    match pending c with
    | Some (mode, ps) =>
        {| state := state c; pending := None;
           drawn := drawn c ++
             [{| sub_mode := mode; sub_points := ps; sub_indices := [];
                 sub_state := state c |}] |}
    | None => c
    end.

(** [glDrawElements(mode, count, GL_UNSIGNED_INT, indices)]: the first
    [count] indices select positions from the bound vertex array. *)
Definition glDrawElements (mode : primitive) (count : nat) (indices : list Z) : gl :=
  fun c =>
    {| state := state c; pending := pending c;
       drawn := drawn c ++
         [{| sub_mode := mode;
             sub_points :=
               if vertex_array (state c) then vertex_pointer (state c) else [];
             sub_indices := firstn count indices;
             sub_state := state c |}] |}.

Definition seq_gl (a b : gl) : gl := fun c => b (a c).

Definition when (b : bool) (a : gl) : gl := if b then a else (fun c => c).

End GL.

Import GL.

Notation "a >> b" := (seq_gl a b) (at level 62, left associativity).

(** ** Drawing (lines 47-79) *)

(** [draw_object]; the defaults [line_width=2.0] and [use_normal=False] are
    written out at the call sites. *)
Definition draw_object (vertices : list point) (indices : list Z)
    (color : point) (line_width : R) (use_normal : bool) : gl :=
  glEnableClientState GL_VERTEX_ARRAY >>
  glVertexPointerf vertices >>
  glColor3f color >>
  when use_normal
    (glEnableClientState GL_NORMAL_ARRAY >>
     glNormalPointerf vertices >>
     glDisable GL_LIGHTING) >>
  when (truthy line_width) (glLineWidth line_width) >>
  glDrawElements GL_TRIANGLES (length indices) indices >>
  glDisableClientState GL_VERTEX_ARRAY >>
  when use_normal (glDisableClientState GL_NORMAL_ARRAY).

(** [draw_stars]; the loop over the stars is a fold, no call in it raises. *)
Definition draw_stars (g : globals) (stars : list point) : gl :=
  glDisable GL_LIGHTING >>
  glColor3f (1.0, 1.0, 1.0) >>
  glPointSize (star_size g) >>
  glBegin GL_POINTS >>
  (fun c => fold_left (fun c star => glVertex3fv star c) stars c) >>
  glEnd.

(** ** The render loop of [main] (lines 82-154) *)

Record scene : Type := {
  sphere_vertices : list point;
  sphere_normals : list point;
  sphere_indices : list Z;
  ring_vertices : list point;
  ring_indices : list Z;
  additional_ring_vertices : list point;
  additional_ring_indices : list Z;
  horizontal_ring_vertices : list point;
  horizontal_ring_indices : list Z;
  stars : list point
}.

(** Lines 94-98: the geometry is created once, before the loop. *)
Definition create_scene (g : globals) (rng : nat -> R) : result scene :=
  ' (sv, sn, si) <- create_sphere g ;;
  ' (rv, ri) <-
    create_ring (rk_radius (ring_params g)) (rk_thickness (ring_params g))
      (rk_segments (ring_params g)) false ;;
  ' (av, ai) <-
    create_ring (rk_radius (additional_ring_params g))
      (rk_thickness (additional_ring_params g))
      (rk_segments (additional_ring_params g)) false ;;
  ' (hv, hi) <-
    create_ring (rk_radius (horizontal_ring_params g))
      (rk_thickness (horizontal_ring_params g))
      (rk_segments (horizontal_ring_params g)) true ;;
  st <- generate_stars g rng ;;
  ok {| sphere_vertices := sv; sphere_normals := sn; sphere_indices := si;
        ring_vertices := rv; ring_indices := ri;
        additional_ring_vertices := av; additional_ring_indices := ai;
        horizontal_ring_vertices := hv; horizontal_ring_indices := hi;
        stars := st |}.

(** Lines 101-106: the rotation state and the two constants of the loop. *)
Record camera : Type := {
  rot_x : R;
  rot_y : R;
  rot_x_velocity : R;
  rot_y_velocity : R;
  mouse_down : bool;
  last_mouse_pos : Z * Z
}.

Definition initial_camera : camera :=
  {| rot_x := 0; rot_y := 0; rot_x_velocity := 0; rot_y_velocity := 0;
     mouse_down := false; last_mouse_pos := (0, 0)%Z |}.

Definition camera_rotation_speed : R := 0.02.
Definition deceleration : R := 0.95.

(** The events the loop tells apart.  The handlers do not read the position
    an event carries, they call [pygame.mouse.get_pos()]: an event of the
    feed comes with the position that call returns while it is handled. *)
Inductive event_type : Type :=
| QUIT
| MOUSEBUTTONDOWN (button : Z)
| MOUSEBUTTONUP (button : Z)
| MOUSEMOTION
| OTHER.

Definition event : Type := (event_type * (Z * Z))%type.

(** Lines 111-126: one turn of [for event in pygame.event.get()]. *)
Definition handle_event (ev : event) (c : camera) : result camera :=
  let '(type, get_pos) := ev in
  match type with
  | QUIT => raise SystemExit
  | MOUSEBUTTONDOWN button =>
      if (button =? 1)%Z
      then ok {| rot_x := rot_x c; rot_y := rot_y c;
                 rot_x_velocity := rot_x_velocity c;
                 rot_y_velocity := rot_y_velocity c;
                 mouse_down := true; last_mouse_pos := get_pos |}
      else ok c
  | MOUSEBUTTONUP button =>
      if (button =? 1)%Z
      then ok {| rot_x := rot_x c; rot_y := rot_y c;
                 rot_x_velocity := rot_x_velocity c;
                 rot_y_velocity := rot_y_velocity c;
                 mouse_down := false; last_mouse_pos := last_mouse_pos c |}
      else ok c
  | MOUSEMOTION =>
      if mouse_down c
      then
        let '(mouse_x, mouse_y) := get_pos in
        let dx := (mouse_x - fst (last_mouse_pos c))%Z in
        let dy := (mouse_y - snd (last_mouse_pos c))%Z in
        ok {| rot_x := rot_x c; rot_y := rot_y c;
              rot_x_velocity := rot_x_velocity c + IZR dy / 100;
              rot_y_velocity := rot_y_velocity c + IZR dx / 100;
              mouse_down := mouse_down c;
              last_mouse_pos := (mouse_x, mouse_y) |}
      else ok c
  | OTHER => ok c
  end.

(** Lines 129-137: decay, integration and the ambient rotation. *)
Definition update_rotation (c : camera) : camera :=
  let c1 :=
    if negb (mouse_down c)
    then {| rot_x := rot_x c; rot_y := rot_y c;
            rot_x_velocity := rot_x_velocity c * deceleration;
            rot_y_velocity := rot_y_velocity c * deceleration;
            mouse_down := mouse_down c; last_mouse_pos := last_mouse_pos c |}
    else c in
  let c2 :=
    {| rot_x := rot_x c1 + rot_x_velocity c1;
       rot_y := rot_y c1 + rot_y_velocity c1;
       rot_x_velocity := rot_x_velocity c1;
       rot_y_velocity := rot_y_velocity c1;
       mouse_down := mouse_down c1; last_mouse_pos := last_mouse_pos c1 |} in
  if negb (mouse_down c2)
  then {| rot_x := rot_x c2 + camera_rotation_speed; rot_y := rot_y c2;
          rot_x_velocity := rot_x_velocity c2;
          rot_y_velocity := rot_y_velocity c2;
          mouse_down := mouse_down c2; last_mouse_pos := last_mouse_pos c2 |}
  else c2.

(** Lines 140-152: what one frame sends to the context.  The sphere is
    drawn with [use_normal=True]; the rings take both defaults. *)
Definition draw_frame (g : globals) (sc : scene) (c : camera) : gl :=
  glClear >>
  glPushMatrix >>
  glRotatef (rot_x c) 1 0 0 >>
  glRotatef (rot_y c) 0 1 0 >>
  draw_stars g (stars sc) >>
  draw_object (sphere_vertices sc) (sphere_indices sc) (0.06, 0.06, 0.06)
    2.0 true >>
  draw_object (ring_vertices sc) (ring_indices sc) (1.0, 0.5, 0.0) 2.0 false >>
  draw_object (additional_ring_vertices sc) (additional_ring_indices sc)
    (1.0, 0.5, 0.0) 2.0 false >>
  draw_object (horizontal_ring_vertices sc) (horizontal_ring_indices sc)
    (1.0, 0.5, 0.0) 2.0 false >>
  glPopMatrix.

(** One turn of [while True]: the events polled in this frame, the update
    of the rotation, the drawing.  [pygame.display.flip()] and
    [pygame.time.wait(10)] change neither the camera nor the context. *)
Definition frame (g : globals) (sc : scene) (events : list event)
    (s : camera * gl_ctx) : result (camera * gl_ctx) :=
  let '(c, ctx) := s in
  c <- for_each events handle_event c ;;
  let c := update_rotation c in
  ok (c, draw_frame g sc c ctx).

(** The loop over a feed: one list of events per frame. *)
Definition main_loop (g : globals) (sc : scene) (feed : list (list event))
    (s : camera * gl_ctx) : result (camera * gl_ctx) :=
  for_each feed (frame g sc) s.

(** The context when the loop is entered (lines 89-91), from the context
    [ctx0] the window comes with. *)
Definition setup_gl : gl :=
  gluPerspective 45 (IZR 1200 / IZR 675) 0.1 100.0 >>
  glTranslatef 0.0 0.0 (-10) >>
  glEnable GL_DEPTH_TEST.

Definition main (g : globals) (rng : nat -> R) (ctx0 : gl_ctx)
    (feed : list (list event)) : result (camera * gl_ctx) :=
  let ctx := setup_gl ctx0 in
  sc <- create_scene g rng ;;
  main_loop g sc feed (initial_camera, ctx).

(** ** Vocabulary of the properties *)

(** Closed forms of what the loops of the generators append. *)
Definition sphere_normal (g : globals) (lat long : Z) : point :=
  let theta := IZR lat * PI / IZR (lat_bands g) in
  let phi := IZR (long * 2) * PI / IZR (long_bands g) in
  (cos phi * sin theta, cos theta, sin phi * sin theta).

Definition sphere_position (g : globals) (lat long : Z) : point :=
  let '(x, y, z) := sphere_normal g lat long in
  (radius g * x, radius g * y, radius g * z).

Definition sphere_cell (g : globals) (lat long : Z) : list Z :=
  let first := (lat * (long_bands g + 1) + long)%Z in
  let second := (lat * (long_bands g + 1) + long + long_bands g + 1)%Z in
  [first; second; first + 1; second; second + 1; first + 1]%Z.

(** The centerline sample [i] of a ring (line 39). *)
Definition centerline (radius : R) (segments : Z) (horizontal : bool)
    (i : Z) : point :=
  let theta := IZR (i * 2) * PI / IZR segments in
  if horizontal
  then (radius * cos theta, radius * sin theta, 0)
  else (radius * cos theta, 0, radius * sin theta).

Definition ring_pair (radius thickness : R) (segments : Z) (horizontal : bool)
    (i : Z) : list point :=
  let '(x, y, z) := centerline radius segments horizontal i in
  [(x, y, z - thickness / 2); (x, y, z + thickness / 2)].

Definition ring_cell (segments i : Z) : list Z :=
  let next_i := ((i + 1) mod segments)%Z in
  [i * 2; next_i * 2; next_i * 2 + 1; i * 2; next_i * 2 + 1; i * 2 + 1]%Z.

Inductive axis : Type := AxisX | AxisY | AxisZ.

Definition shift (a : axis) (d : R) (p : point) : point :=
  let '(x, y, z) := p in
  match a with
  | AxisX => (x + d, y, z)
  | AxisY => (x, y + d, z)
  | AxisZ => (x, y, z + d)
  end.

(** [lo] and [hi] are the point [centre] moved by [-thickness/2] and by
    [+thickness/2] along [a]. *)
Definition offset_pair (a : axis) (thickness : R) (centre lo hi : point) : Prop :=
  lo = shift a (- (thickness / 2)) centre /\
  hi = shift a (thickness / 2) centre.

(** The axis orthogonal to the plane the centerline lies in. *)
Definition plane_normal_axis (horizontal : bool) : axis :=
  if horizontal then AxisZ else AxisY.

Definition norm (p : point) : R :=
  let '(x, y, z) := p in sqrt (x * x + y * y + z * z).

Definition scale (k : R) (p : point) : point :=
  let '(x, y, z) := p in (k * x, k * y, k * z).

(** Views of a submission. *)
Definition lit (s : submission) : bool := lighting (sub_state s).

Definition normals_used (s : submission) : option (list point) :=
  if normal_array (sub_state s)
  then Some (normal_pointer (sub_state s))
  else None.

Definition sub_color (s : submission) : point := color (sub_state s).

(** The context a fresh window comes with: every capability and client
    array disabled, white as the current color, widths 1. *)
Definition default_ctx : gl_ctx :=
  {| state :=
       {| lighting := false; depth_test := false;
          vertex_array := false; normal_array := false;
          vertex_pointer := []; normal_pointer := [];
          color := (1, 1, 1); line_width := 1; point_size := 1;
          matrix := []; matrix_stack := [] |};
     pending := None;
     drawn := [] |}.

(** Frames without a drag: no event presses the primary button, and none
    asks to quit. *)
Definition presses_primary (ev : event) : bool :=
  match fst ev with
  | MOUSEBUTTONDOWN button => (button =? 1)%Z
  | _ => false
  end.

Definition quits (ev : event) : bool :=
  match fst ev with
  | QUIT => true
  | _ => false
  end.

Definition idle_frame (events : list event) : bool :=
  forallb (fun ev => negb (presses_primary ev) && negb (quits ev)) events.

Definition idle_feed (feed : list (list event)) : bool :=
  forallb idle_frame feed.

(** The star that [generate_stars] places from the two samples [u] and [v]
    it draws for it. *)
Definition star_point (g : globals) (u v : R) : point :=
  let theta := uniform 0 (PI * 2) u in
  let phi := uniform 0 PI v in
  (star_distance g * (sin phi * cos theta),
   star_distance g * (sin phi * sin theta),
   star_distance g * cos phi).

(** The triangles [glDrawElements(GL_TRIANGLES, ...)] reads from an index
    array: consecutive triples. *)
Fixpoint triangles (indices : list Z) : list (Z * Z * Z) :=
  match indices with
  | a :: b :: c :: rest => (a, b, c) :: triangles rest
  | _ => []
  end.

Definition distinct_corners (t : Z * Z * Z) : Prop :=
  let '(a, b, c) := t in a <> b /\ b <> c /\ a <> c.

(** Events that no branch of the handler reacts to. *)
Definition inert (ev : event) : bool :=
  match fst ev with
  | OTHER => true
  | MOUSEBUTTONDOWN button | MOUSEBUTTONUP button => negb (button =? 1)%Z
  | _ => false
  end.

Definition has_quit (feed : list (list event)) : bool :=
  existsb (existsb quits) feed.

(** A run of pointer moves, through the positions [ps]. *)
Definition motions (ps : list (Z * Z)) : list event :=
  map (fun p => (MOUSEMOTION, p)) ps.

(** The configurations in which a generator divides by zero. *)
Definition sphere_divides_by_zero (g : globals) : Prop :=
  lat_bands g = 0%Z \/ ((1 <= lat_bands g)%Z /\ long_bands g = 0%Z).

Definition divides_by_zero (g : globals) : Prop :=
  sphere_divides_by_zero g \/
  rk_segments (ring_params g) = 0%Z \/
  rk_segments (additional_ring_params g) = 0%Z \/
  rk_segments (horizontal_ring_params g) = 0%Z.

(** ** The rotation state in binary64 (lines 101-137)

    The same handlers and the same update as [handle_event] and
    [update_rotation], with the floats of the machine.  The drawing calls
    of lines 140-154 read [rot_x] and [rot_y] and assign none of the
    variables of the loop, so a frame is the events followed by the
    update. *)

Module Binary64.

Import Floats.
Set Warnings "-inexact-float".
Local Open Scope float_scope.

(** [float(z)] for an [int] below 2^53 in size, as the differences of pixel
    coordinates are: there the conversion is exact, and [of_int dy / 100] is
    the correctly rounded quotient that [dy / 100] is in Python. *)
Definition of_int (z : Z) : float :=
  if (z <? 0)%Z
  then - of_uint63 (Uint63.of_Z (- z))
  else of_uint63 (Uint63.of_Z z).

Record camera : Type := {
  rot_x : float;
  rot_y : float;
  rot_x_velocity : float;
  rot_y_velocity : float;
  mouse_down : bool;
  last_mouse_pos : Z * Z
}.

(** The four [int] zeros of lines 101-102 meet floats in every operation
    of the loop, where they convert to 0.0. *)
Definition initial_camera : camera :=
  {| rot_x := 0; rot_y := 0; rot_x_velocity := 0; rot_y_velocity := 0;
     mouse_down := false; last_mouse_pos := (0, 0)%Z |}.

Definition camera_rotation_speed : float := 0.02.
Definition deceleration : float := 0.95.

Definition handle_event (ev : event) (c : camera) : result camera :=
  let '(type, get_pos) := ev in
  match type with
  | QUIT => raise SystemExit
  | MOUSEBUTTONDOWN button =>
      if (button =? 1)%Z
      then ok {| rot_x := rot_x c; rot_y := rot_y c;
                 rot_x_velocity := rot_x_velocity c;
                 rot_y_velocity := rot_y_velocity c;
                 mouse_down := true; last_mouse_pos := get_pos |}
      else ok c
  | MOUSEBUTTONUP button =>
      if (button =? 1)%Z
      then ok {| rot_x := rot_x c; rot_y := rot_y c;
                 rot_x_velocity := rot_x_velocity c;
                 rot_y_velocity := rot_y_velocity c;
                 mouse_down := false; last_mouse_pos := last_mouse_pos c |}
      else ok c
  | MOUSEMOTION =>
      if mouse_down c
      then
        let '(mouse_x, mouse_y) := get_pos in
        let dx := (mouse_x - fst (last_mouse_pos c))%Z in
        let dy := (mouse_y - snd (last_mouse_pos c))%Z in
        ok {| rot_x := rot_x c; rot_y := rot_y c;
              rot_x_velocity := rot_x_velocity c + of_int dy / 100;
              rot_y_velocity := rot_y_velocity c + of_int dx / 100;
              mouse_down := mouse_down c;
              last_mouse_pos := (mouse_x, mouse_y) |}
      else ok c
  | OTHER => ok c
  end.

Definition update_rotation (c : camera) : camera :=
  let c1 :=
    if negb (mouse_down c)
    then {| rot_x := rot_x c; rot_y := rot_y c;
            rot_x_velocity := rot_x_velocity c * deceleration;
            rot_y_velocity := rot_y_velocity c * deceleration;
            mouse_down := mouse_down c; last_mouse_pos := last_mouse_pos c |}
    else c in
  let c2 :=
    {| rot_x := rot_x c1 + rot_x_velocity c1;
       rot_y := rot_y c1 + rot_y_velocity c1;
       rot_x_velocity := rot_x_velocity c1;
       rot_y_velocity := rot_y_velocity c1;
       mouse_down := mouse_down c1; last_mouse_pos := last_mouse_pos c1 |} in
  if negb (mouse_down c2)
  then {| rot_x := rot_x c2 + camera_rotation_speed; rot_y := rot_y c2;
          rot_x_velocity := rot_x_velocity c2;
          rot_y_velocity := rot_y_velocity c2;
          mouse_down := mouse_down c2; last_mouse_pos := last_mouse_pos c2 |}
  else c2.

Definition frame (events : list event) (c : camera) : result camera :=
  c <- for_each events handle_event c ;;
  ok (update_rotation c).

Definition main_loop (feed : list (list event)) (c : camera) : result camera :=
  for_each feed frame c.

(** The two velocities after the moves of a drag through the positions
    [ps], each move measured from the position before it, [ref] being the
    position before the first. *)
Fixpoint accumulate (vx vy : float) (ref : Z * Z) (ps : list (Z * Z))
    : float * float :=
  match ps with
  | [] => (vx, vy)
  | (mouse_x, mouse_y) :: ps' =>
      accumulate (vx + of_int (mouse_y - snd ref) / 100)
        (vy + of_int (mouse_x - fst ref) / 100) (mouse_x, mouse_y) ps'
  end.

(** What the loop does to [rot_x] in a frame without drag and without
    momentum: [rot_x += rot_x_velocity], the velocity being 0, then
    [rot_x += camera_rotation_speed]. *)
Definition ambient_step (a : float) : float := a + 0 + camera_rotation_speed.

End Binary64.

(** ** The loops *)

Section Loops.

Context {A S : Type}.

(** A loop whose body cannot raise on the elements it meets and keeps [I]
    returns, in a state where [I] holds. *)
Lemma for_each_invariant (I : S -> Prop) (xs : list A)
    (body : A -> S -> result S) (s : S) :
  I s ->
  (forall x s, In x xs -> I s -> exists s', body x s = ok s' /\ I s') ->
  exists s', for_each xs body s = ok s' /\ I s'.
Proof.
  revert s; induction xs as [|x xs IH]; intros s Hs Hbody; simpl.
  - exists s; split; [reflexivity|assumption].
  - destruct (Hbody x s (or_introl eq_refl) Hs) as (s1 & E & H1).
    rewrite E; simpl. apply IH; [assumption|].
    intros y t Hy; apply Hbody; right; assumption.
Qed.

End Loops.

(** Loops that only extend lists. *)
Lemma for_each_extend {A B : Type} (f : A -> list B) (xs : list A)
    (body : A -> list B -> result (list B)) (acc : list B) :
  (forall x acc, In x xs -> body x acc = ok (acc ++ f x)) ->
  for_each xs body acc = ok (acc ++ flat_map f xs).
Proof.
  revert acc; induction xs as [|x xs IH]; intros acc H; simpl.
  - rewrite app_nil_r; reflexivity.
  - rewrite (H x acc (or_introl eq_refl)); simpl.
    rewrite IH by (intros y a Hy; apply H; right; assumption).
    rewrite app_assoc; reflexivity.
Qed.

Lemma for_each_extend2 {A B C : Type} (f : A -> list B) (h : A -> list C)
    (xs : list A) (body : A -> list B * list C -> result (list B * list C))
    (acc : list B) (acc' : list C) :
  (forall x acc acc', In x xs ->
     body x (acc, acc') = ok (acc ++ f x, acc' ++ h x)) ->
  for_each xs body (acc, acc') =
  ok (acc ++ flat_map f xs, acc' ++ flat_map h xs).
Proof.
  revert acc acc'; induction xs as [|x xs IH]; intros acc acc' H; simpl.
  - rewrite !app_nil_r; reflexivity.
  - rewrite (H x acc acc' (or_introl eq_refl)); simpl.
    rewrite IH by (intros y a a' Hy; apply H; right; assumption).
    rewrite !app_assoc; reflexivity.
Qed.

(** ** [range] *)

Lemma range_length (n : Z) : length (range n) = Z.to_nat n.
Proof. unfold range; rewrite length_map, length_seq; reflexivity. Qed.

Lemma in_range (n i : Z) : In i (range n) <-> (0 <= i < n)%Z.
Proof.
  unfold range; rewrite in_map_iff; split.
  - intros (k & <- & Hk); apply in_seq in Hk; lia.
  - intros H; exists (Z.to_nat i); split; [lia|apply in_seq; lia].
Qed.

Lemma range_nth_error (n : Z) (k : nat) :
  (Z.of_nat k < n)%Z -> nth_error (range n) k = Some (Z.of_nat k).
Proof.
  intros H; unfold range.
  rewrite nth_error_map, nth_error_nth' with (d := O) by (rewrite length_seq; lia).
  rewrite seq_nth by lia; reflexivity.
Qed.

Lemma truediv_nonzero (a : R) (b : Z) :
  b <> 0%Z -> truediv a b = ok (a / IZR b).
Proof.
  intros H; unfold truediv.
  destruct (Z.eqb_spec b 0); [contradiction|reflexivity].
Qed.

Lemma mod_nonzero (a b : Z) : b <> 0%Z -> mod_ a b = ok (a mod b)%Z.
Proof.
  intros H; unfold mod_.
  destruct (Z.eqb_spec b 0); [contradiction|reflexivity].
Qed.

(** ** Lists built by [flat_map] with blocks of one size *)

Lemma flat_map_length_const {A B : Type} (f : A -> list B) (k : nat)
    (xs : list A) :
  (forall x, In x xs -> length (f x) = k) ->
  length (flat_map f xs) = (k * length xs)%nat.
Proof.
  induction xs as [|x xs IH]; intros H; simpl; [lia|].
  rewrite length_app, (H x (or_introl eq_refl)), IH; [lia|].
  intros y Hy; apply H; right; assumption.
Qed.

Lemma flat_map_Forall {A B : Type} (P : B -> Prop) (f : A -> list B)
    (xs : list A) :
  (forall x, In x xs -> Forall P (f x)) -> Forall P (flat_map f xs).
Proof.
  induction xs as [|x xs IH]; intros H; simpl; [constructor|].
  apply Forall_app; split; [apply H; left; reflexivity|].
  apply IH; intros y Hy; apply H; right; assumption.
Qed.

Lemma flat_map_Forall2 {A B C : Type} (P : B -> C -> Prop)
    (f : A -> list B) (h : A -> list C) (xs : list A) :
  (forall x, In x xs -> Forall2 P (f x) (h x)) ->
  Forall2 P (flat_map f xs) (flat_map h xs).
Proof.
  induction xs as [|x xs IH]; intros H; simpl; [constructor|].
  apply Forall2_app; [apply H; left; reflexivity|].
  apply IH; intros y Hy; apply H; right; assumption.
Qed.

Lemma map_as_flat_map {A B : Type} (f : A -> B) (xs : list A) :
  map f xs = flat_map (fun x => [f x]) xs.
Proof. induction xs as [|x xs IH]; simpl; [|rewrite IH]; reflexivity. Qed.

Lemma flat_map_pairs_nth_error {A B : Type} (a b : A -> B) (xs : list A)
    (k : nat) (x : A) :
  nth_error xs k = Some x ->
  nth_error (flat_map (fun x => [a x; b x]) xs) (2 * k) = Some (a x) /\
  nth_error (flat_map (fun x => [a x; b x]) xs) (2 * k + 1) = Some (b x).
Proof.
  revert k; induction xs as [|y xs IH]; intros [|k] H; simpl in H;
    try discriminate.
  - injection H as ->; split; reflexivity.
  - replace (2 * S k)%nat with (S (S (2 * k))) by lia.
    replace (S (S (2 * k)) + 1)%nat with (S (S (2 * k + 1))) by lia.
    simpl flat_map; simpl nth_error. apply IH; assumption.
Qed.

(** ** Closed forms of the generators *)

Lemma create_ring_ok (radius thickness : R) (segments : Z) (horizontal : bool) :
  segments <> 0%Z ->
  create_ring radius thickness segments horizontal =
  ok (flat_map (ring_pair radius thickness segments horizontal)
        (range (segments + 1)),
      flat_map (ring_cell segments) (range segments)).
Proof.
  intros Hseg; unfold create_ring.
  rewrite (for_each_extend (ring_pair radius thickness segments horizontal)).
  - simpl bind. rewrite (for_each_extend (ring_cell segments)).
    + reflexivity.
    + intros i acc _. rewrite mod_nonzero by assumption. reflexivity.
  - intros i acc _. rewrite truediv_nonzero by assumption.
    unfold ring_pair, centerline; simpl bind.
    destruct horizontal; reflexivity.
Qed.

Lemma create_ring_zero_segments (radius thickness : R) (horizontal : bool) :
  create_ring radius thickness 0 horizontal = raise ZeroDivisionError.
Proof. reflexivity. Qed.

Lemma create_sphere_ok (g : globals) :
  lat_bands g <> 0%Z -> long_bands g <> 0%Z ->
  create_sphere g =
  ok (flat_map (fun lat => map (sphere_position g lat) (range (long_bands g + 1)))
        (range (lat_bands g + 1)),
      flat_map (fun lat => map (sphere_normal g lat) (range (long_bands g + 1)))
        (range (lat_bands g + 1)),
      flat_map (fun lat => flat_map (sphere_cell g lat) (range (long_bands g)))
        (range (lat_bands g))).
Proof.
  intros Hlat Hlong; unfold create_sphere.
  rewrite (for_each_extend2
             (fun lat => map (sphere_position g lat) (range (long_bands g + 1)))
             (fun lat => map (sphere_normal g lat) (range (long_bands g + 1)))).
  - simpl bind.
    rewrite (for_each_extend
               (fun lat => flat_map (sphere_cell g lat) (range (long_bands g)))).
    + reflexivity.
    + intros lat acc _.
      apply (for_each_extend (sphere_cell g lat)).
      intros long acc' _; reflexivity.
  - intros lat vs ns _. rewrite truediv_nonzero by assumption. simpl bind.
    rewrite !(map_as_flat_map _ (range (long_bands g + 1))).
    apply (for_each_extend2 (fun long => [sphere_position g lat long])
             (fun long => [sphere_normal g lat long])).
    intros long vs' ns' _. rewrite truediv_nonzero by assumption.
    reflexivity.
Qed.

(** ** Creation of the scene *)

Lemma generate_stars_ok (g : globals) (rng : nat -> R) :
  exists ps, generate_stars g rng = ok ps.
Proof.
  unfold generate_stars.
  match goal with
  | |- context [for_each ?xs ?body ?s0] =>
      destruct (for_each_invariant (fun _ => True) xs body s0 I)
        as ([ps n] & E & _)
  end.
  - intros x [ps n] _ _; eexists; split; [reflexivity|exact I].
  - rewrite E; exists ps; reflexivity.
Qed.

Lemma create_scene_ok (g : globals) (rng : nat -> R) :
  lat_bands g <> 0%Z -> long_bands g <> 0%Z ->
  rk_segments (ring_params g) <> 0%Z ->
  rk_segments (additional_ring_params g) <> 0%Z ->
  rk_segments (horizontal_ring_params g) <> 0%Z ->
  exists sc,
    create_scene g rng = ok sc /\
    create_sphere g =
      ok (sphere_vertices sc, sphere_normals sc, sphere_indices sc) /\
    create_ring (rk_radius (ring_params g)) (rk_thickness (ring_params g))
      (rk_segments (ring_params g)) false =
      ok (ring_vertices sc, ring_indices sc).
Proof.
  intros Hlat Hlong H1 H2 H3; unfold create_scene.
  rewrite create_sphere_ok, !create_ring_ok by assumption.
  destruct (generate_stars_ok g rng) as [ps ->].
  eexists; split; [reflexivity|]. split; reflexivity.
Qed.

(** ** Rings *)

Lemma ring_pair_shift (radius thickness : R) (segments : Z) (horizontal : bool)
    (i : Z) :
  ring_pair radius thickness segments horizontal i =
  [shift AxisZ (- (thickness / 2)) (centerline radius segments horizontal i);
   shift AxisZ (thickness / 2) (centerline radius segments horizontal i)].
Proof.
  unfold ring_pair.
  destruct (centerline radius segments horizontal i) as [[x y] z].
  reflexivity.
Qed.

Lemma ring_pair_length (radius thickness : R) (segments : Z)
    (horizontal : bool) (i : Z) :
  length (ring_pair radius thickness segments horizontal i) = 2%nat.
Proof. rewrite ring_pair_shift; reflexivity. Qed.

Lemma ring_cell_bound (segments i : Z) :
  (0 <= i < segments)%Z ->
  Forall (fun j => 0 <= j <= 2 * segments - 1)%Z (ring_cell segments i).
Proof.
  intros Hi; unfold ring_cell.
  assert (0 <= (i + 1) mod segments < segments)%Z
    by (apply Z.mod_pos_bound; lia).
  repeat constructor; lia.
Qed.

Lemma ring_indices_bound (segments : Z) :
  Forall (fun j => 0 <= j <= 2 * segments - 1)%Z
    (flat_map (ring_cell segments) (range segments)).
Proof.
  apply flat_map_Forall; intros i Hi.
  apply ring_cell_bound, in_range, Hi.
Qed.

Lemma ring_vertices_length (radius thickness : R) (segments : Z)
    (horizontal : bool) :
  (0 <= segments)%Z ->
  Z.of_nat (length (flat_map (ring_pair radius thickness segments horizontal)
                      (range (segments + 1)))) = (2 * (segments + 1))%Z.
Proof.
  intros H.
  rewrite (flat_map_length_const _ 2)
    by (intros; apply ring_pair_length).
  rewrite range_length; lia.
Qed.

Lemma ring_indices_length (segments : Z) :
  (0 <= segments)%Z ->
  Z.of_nat (length (flat_map (ring_cell segments) (range segments))) =
  (6 * segments)%Z.
Proof.
  intros H.
  rewrite (flat_map_length_const _ 6) by reflexivity.
  rewrite range_length; lia.
Qed.

(** C6.  For every [segments >= 3], [create_ring] returns [2 * (segments + 1)]
    vertices and [6 * segments] indices, and every index is a valid position
    of the vertex array: non-negative and strictly below the vertex count. *)
Theorem create_ring_counts (radius thickness : R) (segments : Z)
    (horizontal : bool) :
  (3 <= segments)%Z ->
  exists vertices indices,
    create_ring radius thickness segments horizontal = ok (vertices, indices) /\
    Z.of_nat (length vertices) = (2 * (segments + 1))%Z /\
    Z.of_nat (length indices) = (6 * segments)%Z /\
    Forall (fun j => 0 <= j < Z.of_nat (length vertices))%Z indices.
Proof.
  intros H.
  eexists; eexists; split; [apply create_ring_ok; lia|].
  rewrite ring_vertices_length, ring_indices_length by lia.
  repeat split.
  eapply Forall_impl; [|apply ring_indices_bound].
  cbv beta; intros j Hj; lia.
Qed.

Lemma create_ring_counts_witness :
  (3 <= 100)%Z /\
  exists vertices indices,
    create_ring 1.5 0.5 100 false = ok (vertices, indices) /\
    Z.of_nat (length vertices) = (2 * (100 + 1))%Z /\
    Z.of_nat (length indices) = (6 * 100)%Z /\
    Forall (fun j => 0 <= j < Z.of_nat (length vertices))%Z indices.
Proof.
  split; [lia|].
  apply (create_ring_counts 1.5 0.5 100 false); lia.
Defined.

(** C10.  For every [segments >= 1] no index that [create_ring] emits
    exceeds [2 * segments - 1]: the pair appended for the last sample, at
    positions [2 * segments] and [2 * segments + 1], is referenced by no
    triangle. *)
Theorem create_ring_seam_pair_unreferenced (radius thickness : R)
    (segments : Z) (horizontal : bool) :
  (1 <= segments)%Z ->
  exists vertices indices,
    create_ring radius thickness segments horizontal = ok (vertices, indices) /\
    Forall (fun j => j <= 2 * segments - 1)%Z indices /\
    ~ In (2 * segments)%Z indices /\
    ~ In (2 * segments + 1)%Z indices.
Proof.
  intros H.
  eexists; eexists; split; [apply create_ring_ok; lia|].
  pose proof (ring_indices_bound segments) as B.
  rewrite Forall_forall in B.
  repeat split.
  - apply Forall_forall; intros j Hj; specialize (B j Hj); cbv beta in B; lia.
  - intros Hin; specialize (B _ Hin); cbv beta in B; lia.
  - intros Hin; specialize (B _ Hin); cbv beta in B; lia.
Qed.

Lemma create_ring_seam_pair_unreferenced_witness :
  (1 <= 1)%Z /\
  exists vertices indices,
    create_ring 2.2 0.2 1 true = ok (vertices, indices) /\
    Forall (fun j => j <= 2 * 1 - 1)%Z indices /\
    ~ In (2 * 1)%Z indices /\
    ~ In (2 * 1 + 1)%Z indices.
Proof.
  split; [lia|].
  apply (create_ring_seam_pair_unreferenced 2.2 0.2 1 true); lia.
Defined.

(** C1, as amended.  For every ring [create_ring] generates, in either
    orientation, the two vertices emitted for centerline sample [k] are the
    sample moved by [-thickness/2] and by [+thickness/2] along the z axis.
    The horizontal centerline lies in the plane [z = 0], the vertical one in
    the plane [y = 0]. *)
Theorem create_ring_offsets_along_z (radius thickness : R) (segments : Z)
    (horizontal : bool) (k : nat) :
  (1 <= segments)%Z ->
  (Z.of_nat k <= segments)%Z ->
  exists vertices indices lo hi,
    create_ring radius thickness segments horizontal = ok (vertices, indices) /\
    nth_error vertices (2 * k) = Some lo /\
    nth_error vertices (2 * k + 1) = Some hi /\
    offset_pair AxisZ thickness
      (centerline radius segments horizontal (Z.of_nat k)) lo hi /\
    (let '(x, y, z) := centerline radius segments horizontal (Z.of_nat k) in
     if horizontal then z = 0 else y = 0).
Proof.
  intros Hseg Hk.
  destruct (flat_map_pairs_nth_error
              (fun i => shift AxisZ (- (thickness / 2))
                          (centerline radius segments horizontal i))
              (fun i => shift AxisZ (thickness / 2)
                          (centerline radius segments horizontal i))
              (range (segments + 1)) k (Z.of_nat k)) as [Hlo Hhi].
  { apply range_nth_error; lia. }
  eexists; eexists; eexists; eexists.
  split; [apply create_ring_ok; lia|].
  rewrite (flat_map_ext _ _ (ring_pair_shift radius thickness segments horizontal)).
  split; [exact Hlo|]. split; [exact Hhi|].
  split; [split; reflexivity|].
  unfold centerline; destruct horizontal; reflexivity.
Qed.

Lemma create_ring_offsets_along_z_witness :
  (1 <= 100)%Z /\ (Z.of_nat 0 <= 100)%Z /\
  exists vertices indices lo hi,
    create_ring 1.5 0.5 100 false = ok (vertices, indices) /\
    nth_error vertices (2 * 0) = Some lo /\
    nth_error vertices (2 * 0 + 1) = Some hi /\
    offset_pair AxisZ 0.5 (centerline 1.5 100 false (Z.of_nat 0)) lo hi /\
    (let '(x, y, z) := centerline 1.5 100 false (Z.of_nat 0) in
     if false then z = 0 else y = 0).
Proof.
  split; [lia|]. split; [simpl; lia|].
  apply (create_ring_offsets_along_z 1.5 0.5 100 false 0); simpl; lia.
Defined.

Lemma centerline_first (radius : R) (segments : Z) (horizontal : bool) :
  centerline radius segments horizontal 0 = (radius, 0, 0).
Proof.
  unfold centerline.
  replace (IZR (0 * 2) * PI / IZR segments) with 0
    by (simpl; unfold Rdiv; rewrite !Rmult_0_l; reflexivity).
  rewrite cos_0, sin_0, Rmult_1_r, Rmult_0_r.
  destruct horizontal; reflexivity.
Qed.

(** C1, the claim as written, fails on the vertical ring of [ring_params]:
    the pair emitted for sample 0 is [(1.5, 0, -0.25)] and [(1.5, 0, 0.25)],
    the sample [(1.5, 0, 0)] moved along z; in neither order is it the
    sample moved by [-thickness/2] and [+thickness/2] along y, the axis
    orthogonal to the plane of this ring. *)
Lemma create_ring_vertical_not_offset_along_y :
  exists vertices indices lo hi,
    create_ring 1.5 0.5 100 false = ok (vertices, indices) /\
    nth_error vertices 0 = Some lo /\
    nth_error vertices 1 = Some hi /\
    lo = (1.5, 0, -0.25) /\
    hi = (1.5, 0, 0.25) /\
    centerline 1.5 100 false 0 = (1.5, 0, 0) /\
    plane_normal_axis false = AxisY /\
    ~ offset_pair (plane_normal_axis false) 0.5
        (centerline 1.5 100 false 0) lo hi /\
    ~ offset_pair (plane_normal_axis false) 0.5
        (centerline 1.5 100 false 0) hi lo.
Proof.
  exists (flat_map (ring_pair 1.5 0.5 100 false) (range (100 + 1))),
         (flat_map (ring_cell 100) (range 100)),
         (1.5, 0, -0.25), (1.5, 0, 0.25).
  split; [apply create_ring_ok; lia|].
  assert (E : ring_pair 1.5 0.5 100 false 0 = [(1.5, 0, -0.25); (1.5, 0, 0.25)]).
  { rewrite ring_pair_shift, centerline_first; simpl.
    repeat f_equal; lra. }
  change (range (100 + 1)) with (0%Z :: map Z.of_nat (seq 1 100)).
  cbn [flat_map]; rewrite E.
  repeat split; try reflexivity.
  - apply centerline_first.
  - rewrite centerline_first; unfold offset_pair; simpl.
    intros [H _]; injection H; intros; lra.
  - rewrite centerline_first; unfold offset_pair; simpl.
    intros [H _]; injection H; intros; lra.
Qed.

(** ** Configuration that is not checked *)

(** C8, as amended.  Nothing checks the configuration.  When the first
    ring has zero segments the program stops before its first frame, with
    the [ZeroDivisionError] of the division in the angle of the first
    sample.  With any other segment count [create_ring] returns, whatever
    the radius and the thickness are, also zero or negative. *)
Theorem configuration_unchecked :
  (forall g rng ctx0 feed,
     lat_bands g <> 0%Z -> long_bands g <> 0%Z ->
     rk_segments (ring_params g) = 0%Z ->
     main g rng ctx0 feed = raise ZeroDivisionError) /\
  (forall radius thickness segments horizontal,
     segments <> 0%Z ->
     exists vertices indices,
       create_ring radius thickness segments horizontal =
         ok (vertices, indices)).
Proof.
  split.
  - intros g rng ctx0 feed Hlat Hlong Hseg.
    unfold main, create_scene.
    rewrite create_sphere_ok by assumption.
    rewrite Hseg, create_ring_zero_segments; reflexivity.
  - intros radius thickness segments horizontal H.
    eexists; eexists; apply create_ring_ok; assumption.
Qed.

Lemma configuration_unchecked_witness :
  main {| radius := 1.5; lat_bands := 50; long_bands := 50;
          ring_params :=
            {| rk_radius := 1.5; rk_thickness := 0.5; rk_segments := 0 |};
          additional_ring_params := additional_ring_params module_globals;
          horizontal_ring_params := horizontal_ring_params module_globals;
          num_stars := 150; star_distance := 100; star_size := 1 |}
       (fun _ => 0) default_ctx [[]; []] = raise ZeroDivisionError /\
  exists vertices indices,
    create_ring (-1) 0.5 100 false = ok (vertices, indices).
Proof.
  destruct configuration_unchecked as [Hzero Hother].
  split.
  - apply Hzero; simpl; [lia|lia|reflexivity].
  - apply (Hother (-1) 0.5 100%Z false); lia.
Defined.

(** C8, the claim as written, fails on a first ring of radius 0: ring and
    scene are created without any error, the 202 vertices of the ring are
    all [(0, 0, -0.25)] or [(0, 0, 0.25)], and the program runs its first
    frame. *)
Lemma radius_zero_not_rejected :
  exists vertices indices sc c ctx,
    create_ring 0 0.5 100 false = ok (vertices, indices) /\
    length vertices = 202%nat /\
    Forall (fun v => v = (0, 0, -0.25) \/ v = (0, 0, 0.25)) vertices /\
    create_scene
      {| radius := 1.5; lat_bands := 50; long_bands := 50;
         ring_params :=
           {| rk_radius := 0; rk_thickness := 0.5; rk_segments := 100 |};
         additional_ring_params := additional_ring_params module_globals;
         horizontal_ring_params := horizontal_ring_params module_globals;
         num_stars := 150; star_distance := 100; star_size := 1 |}
      (fun _ => 0) = ok sc /\
    ring_vertices sc = vertices /\
    main
      {| radius := 1.5; lat_bands := 50; long_bands := 50;
         ring_params :=
           {| rk_radius := 0; rk_thickness := 0.5; rk_segments := 100 |};
         additional_ring_params := additional_ring_params module_globals;
         horizontal_ring_params := horizontal_ring_params module_globals;
         num_stars := 150; star_distance := 100; star_size := 1 |}
      (fun _ => 0) default_ctx [[]] = ok (c, ctx).
Proof.
  set (g0 := {| radius := 1.5; lat_bands := 50; long_bands := 50;
                ring_params :=
                  {| rk_radius := 0; rk_thickness := 0.5;
                     rk_segments := 100 |};
                additional_ring_params := additional_ring_params module_globals;
                horizontal_ring_params := horizontal_ring_params module_globals;
                num_stars := 150; star_distance := 100; star_size := 1 |}).
  destruct (create_scene_ok g0 (fun _ => 0))
    as (sc & Esc & _ & Ering); try (simpl; lia).
  cbn [g0 ring_params rk_radius rk_thickness rk_segments] in Ering.
  exists (ring_vertices sc), (ring_indices sc), sc,
    (update_rotation initial_camera),
    (draw_frame g0 sc (update_rotation initial_camera) (setup_gl default_ctx)).
  split; [exact Ering|].
  rewrite create_ring_ok in Ering by lia.
  assert (Ev : ring_vertices sc =
               flat_map (ring_pair 0 0.5 100 false) (range (100 + 1)))
    by (unfold ok in Ering; congruence).
  rewrite Ev.
  split.
  { rewrite (flat_map_length_const _ 2) by (intros; apply ring_pair_length).
    rewrite range_length; reflexivity. }
  split.
  { apply flat_map_Forall; intros i _.
    unfold ring_pair, centerline.
    constructor; [left|constructor; [right|constructor]];
      repeat f_equal; lra. }
  split; [exact Esc|]. split; [reflexivity|].
  unfold main; rewrite Esc; reflexivity.
Qed.

(** ** The sphere *)

Lemma sphere_cell_bound (g : globals) (lat long : Z) :
  (0 <= lat < lat_bands g)%Z -> (0 <= long < long_bands g)%Z ->
  Forall (fun j => 0 <= j < (lat_bands g + 1) * (long_bands g + 1))%Z
    (sphere_cell g lat long).
Proof.
  intros Hlat Hlong; unfold sphere_cell.
  assert (lat * (long_bands g + 1) <=
          (lat_bands g - 1) * (long_bands g + 1))%Z by nia.
  assert (0 <= lat * (long_bands g + 1))%Z by nia.
  repeat constructor; lia.
Qed.

Lemma sphere_grid_length {B : Type} (f : Z -> Z -> B) (rows cols : Z) :
  (0 <= rows)%Z -> (0 <= cols)%Z ->
  Z.of_nat (length (flat_map (fun lat => map (f lat) (range cols))
                      (range rows))) = (rows * cols)%Z.
Proof.
  intros Hr Hc.
  rewrite (flat_map_length_const _ (Z.to_nat cols))
    by (intros; rewrite length_map; apply range_length).
  rewrite range_length; nia.
Qed.

Lemma sphere_indices_length (g : globals) :
  (0 <= lat_bands g)%Z -> (0 <= long_bands g)%Z ->
  Z.of_nat
    (length (flat_map
               (fun lat => flat_map (sphere_cell g lat) (range (long_bands g)))
               (range (lat_bands g)))) =
  (6 * lat_bands g * long_bands g)%Z.
Proof.
  intros Hlat Hlong.
  rewrite (flat_map_length_const _ (6 * Z.to_nat (long_bands g))).
  - rewrite range_length; nia.
  - intros lat _.
    rewrite (flat_map_length_const _ 6) by reflexivity.
    rewrite range_length; reflexivity.
Qed.

(** C5.  For all [lat_bands, long_bands >= 1], [create_sphere] returns
    [(lat_bands + 1) * (long_bands + 1)] vertices (and as many normals) and
    [6 * lat_bands * long_bands] indices, and every index is a valid
    position of the vertex array: non-negative and strictly below the
    vertex count. *)
Theorem create_sphere_counts (g : globals) :
  (1 <= lat_bands g)%Z -> (1 <= long_bands g)%Z ->
  exists vertices normals indices,
    create_sphere g = ok (vertices, normals, indices) /\
    Z.of_nat (length vertices) = ((lat_bands g + 1) * (long_bands g + 1))%Z /\
    Z.of_nat (length normals) = ((lat_bands g + 1) * (long_bands g + 1))%Z /\
    Z.of_nat (length indices) = (6 * lat_bands g * long_bands g)%Z /\
    Forall (fun j => 0 <= j < Z.of_nat (length vertices))%Z indices.
Proof.
  intros Hlat Hlong.
  eexists; eexists; eexists; split; [apply create_sphere_ok; lia|].
  rewrite !sphere_grid_length, sphere_indices_length by lia.
  repeat split.
  apply flat_map_Forall; intros lat Hlat'.
  apply flat_map_Forall; intros long Hlong'.
  apply sphere_cell_bound; apply in_range; assumption.
Qed.

Lemma create_sphere_counts_witness :
  (1 <= lat_bands module_globals)%Z /\ (1 <= long_bands module_globals)%Z /\
  exists vertices normals indices,
    create_sphere module_globals = ok (vertices, normals, indices) /\
    Z.of_nat (length vertices) = 2601%Z /\
    Z.of_nat (length normals) = 2601%Z /\
    Z.of_nat (length indices) = 15000%Z /\
    Forall (fun j => 0 <= j < Z.of_nat (length vertices))%Z indices.
Proof.
  split; [simpl; lia|]. split; [simpl; lia|].
  apply (create_sphere_counts module_globals); simpl; lia.
Defined.

Lemma sphere_normal_unit (g : globals) (lat long : Z) :
  norm (sphere_normal g lat long) = 1.
Proof.
  unfold norm, sphere_normal; cbv zeta.
  set (theta := IZR lat * PI / IZR (lat_bands g)).
  set (phi := IZR (long * 2) * PI / IZR (long_bands g)).
  replace (cos phi * sin theta * (cos phi * sin theta) +
           cos theta * cos theta +
           sin phi * sin theta * (sin phi * sin theta))
    with ((sin theta)² * ((sin phi)² + (cos phi)²) + (cos theta)²)
    by (unfold Rsqr; ring).
  rewrite sin2_cos2, Rmult_1_r, sin2_cos2.
  apply sqrt_1.
Qed.

Lemma sphere_position_scale (g : globals) (lat long : Z) :
  sphere_position g lat long = scale (radius g) (sphere_normal g lat long).
Proof.
  unfold sphere_position, scale.
  destruct (sphere_normal g lat long) as [[x y] z]; reflexivity.
Qed.

Lemma scale_inverse (k : R) (p : point) :
  k <> 0 -> scale (/ k) (scale k p) = p.
Proof.
  intros Hk; destruct p as [[x y] z]; unfold scale.
  repeat f_equal; field; assumption.
Qed.

(** C7.  For all [lat_bands, long_bands >= 1], [create_sphere] returns as
    many normals as vertices, and for every vertex and the normal at the
    same position: the normal has Euclidean length 1, the vertex is the
    normal scaled by [radius], and, when [radius] is not zero, the normal is
    the vertex divided by [radius].  The equations are exact, so they hold
    within any tolerance. *)
Theorem create_sphere_normals (g : globals) :
  (1 <= lat_bands g)%Z -> (1 <= long_bands g)%Z ->
  exists vertices normals indices,
    create_sphere g = ok (vertices, normals, indices) /\
    Forall2
      (fun position normal =>
         norm normal = 1 /\
         position = scale (radius g) normal /\
         (radius g <> 0 -> normal = scale (/ radius g) position))
      vertices normals.
Proof.
  intros Hlat Hlong.
  eexists; eexists; eexists; split; [apply create_sphere_ok; lia|].
  apply flat_map_Forall2; intros lat _.
  induction (range (long_bands g + 1)) as [|long longs IH]; simpl;
    constructor; [|exact IH].
  split; [apply sphere_normal_unit|].
  split; [apply sphere_position_scale|].
  intros Hr; rewrite sphere_position_scale, scale_inverse by assumption.
  reflexivity.
Qed.

Lemma create_sphere_normals_witness :
  (1 <= lat_bands module_globals)%Z /\ (1 <= long_bands module_globals)%Z /\
  exists vertices normals indices,
    create_sphere module_globals = ok (vertices, normals, indices) /\
    Forall2
      (fun position normal =>
         norm normal = 1 /\
         position = scale 1.5 normal /\
         (1.5 <> 0 -> normal = scale (/ 1.5) position))
      vertices normals.
Proof.
  split; [simpl; lia|]. split; [simpl; lia|].
  apply (create_sphere_normals module_globals); simpl; lia.
Defined.

(** ** What a frame submits *)

Lemma truthy_two : truthy 2.0 = true.
Proof. unfold truthy; destruct (Req_dec_T 2.0 0); [lra|reflexivity]. Qed.

Lemma fold_glVertex3fv (ps : list point) (c : gl_ctx) :
  fold_left (fun c star => glVertex3fv star c) ps c =
  {| state := state c;
     pending := match pending c with
                | Some (mode, qs) => Some (mode, qs ++ ps)
                | None => None
                end;
     drawn := drawn c |}.
Proof.
  revert c; induction ps as [|p ps IH]; intros c; simpl.
  - destruct c as [s [[m qs]|] d]; simpl; [rewrite app_nil_r|]; reflexivity.
  - rewrite IH; unfold glVertex3fv; simpl.
    destruct (pending c) as [[m qs]|]; [rewrite <- app_assoc|]; reflexivity.
Qed.

(** What [draw_stars] and [draw_object] add to the batches drawn. *)
Lemma draw_stars_drawn (g : globals) (ps : list point) (c : gl_ctx) :
  exists s,
    drawn (draw_stars g ps c) = drawn c ++ [s] /\
    sub_mode s = GL_POINTS /\ sub_points s = ps /\
    lit s = false /\ sub_color s = (1.0, 1.0, 1.0) /\
    point_size (sub_state s) = star_size g /\
    lighting (state (draw_stars g ps c)) = false /\
    normal_array (state (draw_stars g ps c)) = normal_array (state c).
Proof.
  unfold draw_stars, seq_gl. rewrite fold_glVertex3fv.
  eexists; repeat split.
Qed.

Lemma draw_object_drawn (vertices : list point) (indices : list Z)
    (rgb : point) (use_normal : bool) (c : gl_ctx) :
  exists s,
    drawn (draw_object vertices indices rgb 2.0 use_normal c) =
      drawn c ++ [s] /\
    sub_mode s = GL_TRIANGLES /\ sub_points s = vertices /\
    sub_indices s = indices /\
    lit s = (if use_normal then false else lighting (state c)) /\
    normals_used s =
      (if use_normal then Some vertices
       else if normal_array (state c) then Some (normal_pointer (state c))
       else None) /\
    sub_color s = rgb /\
    line_width (sub_state s) = 2.0 /\
    lighting (state (draw_object vertices indices rgb 2.0 use_normal c)) =
      (if use_normal then false else lighting (state c)) /\
    normal_array (state (draw_object vertices indices rgb 2.0 use_normal c)) =
      (if use_normal then false else normal_array (state c)).
Proof.
  unfold draw_object, seq_gl. rewrite truthy_two.
  destruct use_normal; eexists; (split; [reflexivity|]);
    unfold lit, normals_used, sub_color; cbn -[Rdiv IZR];
    rewrite firstn_all; repeat split.
Qed.

Lemma on_state_drawn (f : gl_state -> gl_state) (c : gl_ctx) :
  drawn (on_state f c) = drawn c.
Proof. reflexivity. Qed.

Lemma draw_frame_drawn (g : globals) (sc : scene) (c : camera)
    (ctx : gl_ctx) :
  exists s_stars s_sphere s_ring s_additional s_horizontal,
    drawn (draw_frame g sc c ctx) =
      [s_stars; s_sphere; s_ring; s_additional; s_horizontal] /\
    (sub_mode s_stars = GL_POINTS /\ sub_points s_stars = stars sc /\
     lit s_stars = false /\ sub_color s_stars = (1.0, 1.0, 1.0)) /\
    (sub_mode s_sphere = GL_TRIANGLES /\
     sub_points s_sphere = sphere_vertices sc /\
     sub_indices s_sphere = sphere_indices sc /\
     lit s_sphere = false /\
     normals_used s_sphere = Some (sphere_vertices sc) /\
     sub_color s_sphere = (0.06, 0.06, 0.06)) /\
    Forall2
      (fun s mesh =>
         sub_mode s = GL_TRIANGLES /\
         sub_points s = fst mesh /\ sub_indices s = snd mesh /\
         lit s = false /\ normals_used s = None /\
         sub_color s = (1.0, 0.5, 0.0) /\
         line_width (sub_state s) = 2.0)
      [s_ring; s_additional; s_horizontal]
      [(ring_vertices sc, ring_indices sc);
       (additional_ring_vertices sc, additional_ring_indices sc);
       (horizontal_ring_vertices sc, horizontal_ring_indices sc)].
Proof.
  unfold draw_frame, seq_gl.
  set (c0 := glRotatef (rot_y c) 0 1 0
               (glRotatef (rot_x c) 1 0 0 (glPushMatrix (glClear ctx)))).
  assert (D0 : drawn c0 = []) by reflexivity.
  destruct (draw_stars_drawn g (stars sc) c0)
    as (s0 & E0 & M0 & P0 & L0 & C0 & _ & Hl0 & Hn0).
  set (c1 := draw_stars g (stars sc) c0) in *.
  destruct (draw_object_drawn (sphere_vertices sc) (sphere_indices sc)
              (0.06, 0.06, 0.06) true c1)
    as (s1 & E1 & M1 & P1 & I1 & L1 & N1 & C1 & _ & Hl1 & Hn1).
  set (c2 := draw_object _ _ _ _ true c1) in *.
  destruct (draw_object_drawn (ring_vertices sc) (ring_indices sc)
              (1.0, 0.5, 0.0) false c2)
    as (s2 & E2 & M2 & P2 & I2 & L2 & N2 & C2 & W2 & Hl2 & Hn2).
  set (c3 := draw_object _ _ _ _ false c2) in *.
  destruct (draw_object_drawn (additional_ring_vertices sc)
              (additional_ring_indices sc) (1.0, 0.5, 0.0) false c3)
    as (s3 & E3 & M3 & P3 & I3 & L3 & N3 & C3 & W3 & Hl3 & Hn3).
  set (c4 := draw_object _ _ _ _ false c3) in *.
  destruct (draw_object_drawn (horizontal_ring_vertices sc)
              (horizontal_ring_indices sc) (1.0, 0.5, 0.0) false c4)
    as (s4 & E4 & M4 & P4 & I4 & L4 & N4 & C4 & W4 & _ & _).
  exists s0, s1, s2, s3, s4.
  split.
  { unfold glPopMatrix; rewrite on_state_drawn.
    rewrite E4, E3, E2, E1, E0, D0; reflexivity. }
  rewrite Hl3 in L4; rewrite Hl2 in L3, L4; rewrite Hl1 in L2, L3, L4.
  rewrite Hn3 in N4; rewrite Hn2 in N3, N4; rewrite Hn1 in N2, N3, N4.
  repeat split; try assumption.
  repeat constructor; assumption.
Qed.

(** C2, as amended.  From every context and for every camera, a frame
    submits exactly five batches, in this order: the star field as points,
    the sphere, the first ring, the additional ring and the horizontal ring
    as indexed triangles.  Lighting is disabled for each of the five.  The
    stars are white, the sphere has color (0.06, 0.06, 0.06) and is drawn
    with the normal array enabled, the rings are drawn with no normal array
    in the flat color (1.0, 0.5, 0.0) and with line width 2.0. *)
Theorem draw_frame_submissions (g : globals) (sc : scene) (c : camera)
    (ctx : gl_ctx) :
  exists s_stars s_sphere s_ring s_additional s_horizontal,
    drawn (draw_frame g sc c ctx) =
      [s_stars; s_sphere; s_ring; s_additional; s_horizontal] /\
    (sub_mode s_stars = GL_POINTS /\ sub_points s_stars = stars sc /\
     lit s_stars = false /\ sub_color s_stars = (1.0, 1.0, 1.0)) /\
    (sub_mode s_sphere = GL_TRIANGLES /\
     sub_points s_sphere = sphere_vertices sc /\
     sub_indices s_sphere = sphere_indices sc /\
     lit s_sphere = false /\
     normal_array (sub_state s_sphere) = true /\
     sub_color s_sphere = (0.06, 0.06, 0.06)) /\
    Forall2
      (fun s mesh =>
         sub_mode s = GL_TRIANGLES /\
         sub_points s = fst mesh /\ sub_indices s = snd mesh /\
         lit s = false /\ normals_used s = None /\
         sub_color s = (1.0, 0.5, 0.0) /\
         line_width (sub_state s) = 2.0)
      [s_ring; s_additional; s_horizontal]
      [(ring_vertices sc, ring_indices sc);
       (additional_ring_vertices sc, additional_ring_indices sc);
       (horizontal_ring_vertices sc, horizontal_ring_indices sc)].
Proof.
  destruct (draw_frame_drawn g sc c ctx)
    as (s0 & s1 & s2 & s3 & s4 & E & H0 & H1 & H2).
  exists s0, s1, s2, s3, s4.
  split; [exact E|]. split; [exact H0|]. split; [|exact H2].
  destruct H1 as (M1 & P1 & I1 & L1 & N1 & C1).
  repeat split; try assumption.
  unfold normals_used in N1.
  destruct (normal_array (sub_state s1)); [reflexivity|discriminate].
Qed.

(** ** The first frame of the program as configured *)

Lemma sphere_first_vertex :
  exists vs ns idx,
    create_sphere module_globals = ok ((0, 1.5, 0) :: vs, (0, 1, 0) :: ns, idx).
Proof.
  rewrite create_sphere_ok by (simpl; lia).
  change (range (lat_bands module_globals + 1))
    with (0%Z :: map Z.of_nat (seq 1 50)).
  change (range (long_bands module_globals + 1))
    with (0%Z :: map Z.of_nat (seq 1 50)).
  cbn [flat_map map app].
  assert (N : sphere_normal module_globals 0 0 = (0, 1, 0)).
  { unfold sphere_normal; cbn [lat_bands long_bands module_globals].
    replace (IZR 0 * PI / IZR 50) with 0 by (unfold Rdiv; ring).
    replace (IZR (0 * 2) * PI / IZR 50) with 0
      by (simpl; unfold Rdiv; ring).
    rewrite cos_0, sin_0. repeat f_equal; ring. }
  rewrite sphere_position_scale, N.
  replace (scale (radius module_globals) (0, 1, 0)) with (0, 1.5, 0)
    by (unfold scale; cbn [radius module_globals]; repeat f_equal; lra).
  eexists; eexists; eexists; reflexivity.
Qed.

(** C2, the claim as written, fails on the first frame of the program as
    configured: the second batch, the sphere, is submitted with lighting
    disabled, and the normal array bound for it is the position array,
    whose first entry is (0, 1.5, 0), not the array of normals, whose first
    entry is (0, 1, 0). *)
Lemma sphere_submitted_unlit :
  exists sc c ctx s_sphere,
    create_scene module_globals (fun _ => 0) = ok sc /\
    main module_globals (fun _ => 0) default_ctx [[]] = ok (c, ctx) /\
    nth_error (drawn ctx) 1 = Some s_sphere /\
    sub_points s_sphere = sphere_vertices sc /\
    lit s_sphere = false /\
    normals_used s_sphere = Some (sphere_vertices sc) /\
    hd_error (sphere_vertices sc) = Some (0, 1.5, 0) /\
    hd_error (sphere_normals sc) = Some (0, 1, 0) /\
    normals_used s_sphere <> Some (sphere_normals sc).
Proof.
  destruct (create_scene_ok module_globals (fun _ => 0))
    as (sc & Esc & Esph & _); try (simpl; lia).
  destruct sphere_first_vertex as (vs & ns & idx & E).
  rewrite E in Esph; injection Esph as Hv Hn _.
  set (c := update_rotation initial_camera).
  destruct (draw_frame_drawn module_globals sc c (setup_gl default_ctx))
    as (s0 & s1 & s2 & s3 & s4 & D & _ & (_ & P1 & _ & L1 & N1 & _) & _).
  exists sc, c, (draw_frame module_globals sc c (setup_gl default_ctx)), s1.
  split; [exact Esc|].
  split; [unfold main; rewrite Esc; reflexivity|].
  split; [rewrite D; reflexivity|].
  split; [exact P1|]. split; [exact L1|]. split; [exact N1|].
  rewrite <- Hv, <- Hn.
  split; [reflexivity|]. split; [reflexivity|].
  rewrite N1, <- Hv.
  intros H; injection H; intros; lra.
Qed.

(** ** The camera *)

Lemma handle_event_idle (ev : event) (c : camera) :
  mouse_down c = false ->
  negb (presses_primary ev) && negb (quits ev) = true ->
  handle_event ev c = ok c.
Proof.
  intros Hup Hev; destruct ev as [[| b | b | |] pos];
    unfold presses_primary, quits in Hev; simpl in Hev; simpl;
    try discriminate; try reflexivity.
  - destruct (b =? 1)%Z; [discriminate|reflexivity].
  - destruct (b =? 1)%Z; [|reflexivity].
    destruct c; simpl in Hup; subst; reflexivity.
  - rewrite Hup; reflexivity.
Qed.

Lemma events_idle (events : list event) (c : camera) :
  mouse_down c = false -> idle_frame events = true ->
  for_each events handle_event c = ok c.
Proof.
  intros Hup; induction events as [|ev events IH]; simpl; intros H;
    [reflexivity|].
  apply andb_prop in H as [Hev Hrest].
  rewrite handle_event_idle by assumption; simpl; apply IH; assumption.
Qed.

Lemma update_rotation_idle (c : camera) :
  mouse_down c = false ->
  update_rotation c =
  {| rot_x := rot_x c + rot_x_velocity c * deceleration + camera_rotation_speed;
     rot_y := rot_y c + rot_y_velocity c * deceleration;
     rot_x_velocity := rot_x_velocity c * deceleration;
     rot_y_velocity := rot_y_velocity c * deceleration;
     mouse_down := false;
     last_mouse_pos := last_mouse_pos c |}.
Proof. intros H; destruct c; simpl in H; subst; reflexivity. Qed.

Lemma update_rotation_dragging (c : camera) :
  mouse_down c = true ->
  update_rotation c =
  {| rot_x := rot_x c + rot_x_velocity c;
     rot_y := rot_y c + rot_y_velocity c;
     rot_x_velocity := rot_x_velocity c;
     rot_y_velocity := rot_y_velocity c;
     mouse_down := true;
     last_mouse_pos := last_mouse_pos c |}.
Proof. intros H; destruct c; simpl in H; subst; reflexivity. Qed.

Lemma frame_idle (g : globals) (sc : scene) (events : list event)
    (c : camera) (ctx : gl_ctx) :
  mouse_down c = false -> idle_frame events = true ->
  frame g sc events (c, ctx) =
  ok (update_rotation c, draw_frame g sc (update_rotation c) ctx).
Proof.
  intros Hup Hev; unfold frame; rewrite events_idle by assumption.
  reflexivity.
Qed.

(** C3.  From a camera with no drag in progress, [k] consecutive frames in
    which the primary button is not pressed return, and leave each angular
    velocity at its initial value times [deceleration ^ k]; for
    [deceleration = 0.95], initial velocity 1.0 and [k = 10] that value is
    0.5987 to four decimal places. *)
Theorem idle_frames_decay :
  (forall g sc feed c ctx,
     mouse_down c = false -> idle_feed feed = true ->
     exists c' ctx',
       main_loop g sc feed (c, ctx) = ok (c', ctx') /\
       rot_x_velocity c' = rot_x_velocity c * deceleration ^ length feed /\
       rot_y_velocity c' = rot_y_velocity c * deceleration ^ length feed /\
       mouse_down c' = false) /\
  deceleration = 0.95 /\
  Rabs (1.0 * deceleration ^ 10 - 0.5987) < 0.00005.
Proof.
  split.
  - intros g sc feed; induction feed as [|events feed IH];
      intros c ctx Hup Hidle.
    + exists c, ctx; simpl; repeat split; try ring; assumption.
    + simpl in Hidle; apply andb_prop in Hidle as [Hev Hrest].
      unfold main_loop; cbn [for_each].
      rewrite frame_idle by assumption; cbn [bind].
      destruct (IH (update_rotation c)
                  (draw_frame g sc (update_rotation c) ctx))
        as (c' & ctx' & E & Hx & Hy & Hd);
        [rewrite update_rotation_idle by assumption; reflexivity
        |assumption|].
      exists c', ctx'; split; [exact E|].
      rewrite update_rotation_idle in Hx, Hy by assumption; simpl in Hx, Hy.
      rewrite Hx, Hy; simpl length; simpl pow.
      repeat split; try ring; assumption.
  - split; [reflexivity|].
    unfold deceleration; simpl pow.
    apply Rabs_def1; lra.
Qed.

Lemma idle_frames_decay_witness :
  exists c' ctx',
    main_loop module_globals
      {| sphere_vertices := []; sphere_normals := []; sphere_indices := [];
         ring_vertices := []; ring_indices := [];
         additional_ring_vertices := []; additional_ring_indices := [];
         horizontal_ring_vertices := []; horizontal_ring_indices := [];
         stars := [] |}
      [[]; [(MOUSEMOTION, (3, 4)%Z)]; [(MOUSEBUTTONUP 1, (3, 4)%Z)]; [];
       []; []; []; []; []; []]
      ({| rot_x := 0; rot_y := 0; rot_x_velocity := 1.0; rot_y_velocity := 2.0;
          mouse_down := false; last_mouse_pos := (0, 0)%Z |}, default_ctx) =
      ok (c', ctx') /\
    rot_x_velocity c' = 1.0 * deceleration ^ 10 /\
    rot_y_velocity c' = 2.0 * deceleration ^ 10 /\
    mouse_down c' = false.
Proof.
  destruct idle_frames_decay as [H _].
  apply (H module_globals _
           [[]; [(MOUSEMOTION, (3, 4)%Z)]; [(MOUSEBUTTONUP 1, (3, 4)%Z)]; [];
       []; []; []; []; []; []]
           {| rot_x := 0; rot_y := 0; rot_x_velocity := 1.0;
              rot_y_velocity := 2.0;
              mouse_down := false; last_mouse_pos := (0, 0)%Z |}
           default_ctx); reflexivity.
Defined.

(** C4.  While the primary button is down, a pointer move to
    [(mouse_x, mouse_y)] adds [dy / 100] to [rot_x_velocity] and [dx / 100]
    to [rot_y_velocity], where [(dx, dy)] is the move since the last sampled
    position, and makes the new position the last sampled one; a frame
    whose only event is that move applies no decay to the two velocities.
    For [(dx, dy) = (10, 0)], [rot_y_velocity] grows by 0.1 and
    [rot_x_velocity] keeps its value. *)
Theorem drag_motion_accumulates (g : globals) (sc : scene) (c : camera)
    (ctx : gl_ctx) (mouse_x mouse_y : Z) :
  mouse_down c = true ->
  let dx := (mouse_x - fst (last_mouse_pos c))%Z in
  let dy := (mouse_y - snd (last_mouse_pos c))%Z in
  exists c1 c2 ctx2,
    handle_event (MOUSEMOTION, (mouse_x, mouse_y)) c = ok c1 /\
    rot_x_velocity c1 = rot_x_velocity c + IZR dy / 100 /\
    rot_y_velocity c1 = rot_y_velocity c + IZR dx / 100 /\
    last_mouse_pos c1 = (mouse_x, mouse_y) /\
    frame g sc [(MOUSEMOTION, (mouse_x, mouse_y))] (c, ctx) = ok (c2, ctx2) /\
    rot_x_velocity c2 = rot_x_velocity c1 /\
    rot_y_velocity c2 = rot_y_velocity c1 /\
    (dx = 10%Z -> dy = 0%Z ->
     rot_y_velocity c2 = rot_y_velocity c + 0.1 /\
     rot_x_velocity c2 = rot_x_velocity c).
Proof.
  intros Hdown dx dy.
  set (c1 := {| rot_x := rot_x c; rot_y := rot_y c;
                rot_x_velocity := rot_x_velocity c + IZR dy / 100;
                rot_y_velocity := rot_y_velocity c + IZR dx / 100;
                mouse_down := mouse_down c;
                last_mouse_pos := (mouse_x, mouse_y) |}).
  assert (E : handle_event (MOUSEMOTION, (mouse_x, mouse_y)) c = ok c1)
    by (subst c1; simpl; destruct (mouse_down c);
        [reflexivity|discriminate]).
  exists c1, (update_rotation c1),
    (draw_frame g sc (update_rotation c1) ctx).
  split; [exact E|].
  split; [reflexivity|]. split; [reflexivity|]. split; [reflexivity|].
  split; [unfold frame; cbn [for_each]; rewrite E; reflexivity|].
  rewrite update_rotation_dragging by exact Hdown.
  split; [reflexivity|]. split; [reflexivity|].
  intros Hx Hy; simpl; rewrite Hx, Hy; split; lra.
Qed.

Lemma drag_motion_accumulates_witness :
  exists c1 c2 ctx2,
    handle_event (MOUSEMOTION, (110, 40)%Z)
      {| rot_x := 0; rot_y := 0; rot_x_velocity := 0.5; rot_y_velocity := 0.25;
         mouse_down := true; last_mouse_pos := (100, 40)%Z |} = ok c1 /\
    rot_x_velocity c1 = 0.5 + IZR (40 - 40) / 100 /\
    rot_y_velocity c1 = 0.25 + IZR (110 - 100) / 100 /\
    last_mouse_pos c1 = (110, 40)%Z /\
    frame module_globals
      {| sphere_vertices := []; sphere_normals := []; sphere_indices := [];
         ring_vertices := []; ring_indices := [];
         additional_ring_vertices := []; additional_ring_indices := [];
         horizontal_ring_vertices := []; horizontal_ring_indices := [];
         stars := [] |}
      [(MOUSEMOTION, (110, 40)%Z)]
      ({| rot_x := 0; rot_y := 0; rot_x_velocity := 0.5; rot_y_velocity := 0.25;
          mouse_down := true; last_mouse_pos := (100, 40)%Z |}, default_ctx) =
      ok (c2, ctx2) /\
    rot_x_velocity c2 = rot_x_velocity c1 /\
    rot_y_velocity c2 = rot_y_velocity c1 /\
    rot_y_velocity c2 = 0.25 + 0.1 /\
    rot_x_velocity c2 = 0.5.
Proof.
  destruct (drag_motion_accumulates module_globals
              {| sphere_vertices := []; sphere_normals := [];
                 sphere_indices := [];
                 ring_vertices := []; ring_indices := [];
                 additional_ring_vertices := []; additional_ring_indices := [];
                 horizontal_ring_vertices := [];
                 horizontal_ring_indices := [];
                 stars := [] |}
              {| rot_x := 0; rot_y := 0; rot_x_velocity := 0.5;
                 rot_y_velocity := 0.25;
                 mouse_down := true; last_mouse_pos := (100, 40)%Z |}
              default_ctx 110 40 eq_refl)
    as (c1 & c2 & ctx2 & H1 & H2 & H3 & H4 & H5 & H6 & H7 & H8).
  destruct (H8 eq_refl eq_refl) as [H9 H10].
  exists c1, c2, ctx2.
  repeat (split; [assumption|]). assumption.
Defined.

(** ** Further properties of the generators *)

Lemma range_nonpos (n : Z) : (n <= 0)%Z -> range n = [].
Proof.
  intros H; unfold range.
  replace (Z.to_nat n) with O by lia; reflexivity.
Qed.

Lemma range_first (n : Z) :
  (1 <= n)%Z -> exists rest, range n = 0%Z :: rest.
Proof.
  intros H; unfold range.
  destruct (Z.to_nat n) as [|k] eqn:E; [lia|].
  eexists; reflexivity.
Qed.

Lemma range_last (n : Z) :
  (1 <= n)%Z -> range n = range (n - 1) ++ [(n - 1)%Z].
Proof.
  intros H; unfold range.
  replace (Z.to_nat n) with (Z.to_nat (n - 1) + 1)%nat by lia.
  rewrite seq_app, map_app; simpl.
  do 2 f_equal; lia.
Qed.

Lemma generate_stars_loop (g : globals) (rng : nat -> R)
    (body : Z -> list point * nat -> result (list point * nat))
    (xs : list Z) (acc : list point) (j : nat) :
  (forall x stars n,
     body x (stars, n) =
     ok (stars ++ [star_point g (rng n) (rng (S n))], S (S n))) ->
  for_each xs body (acc, (2 * j)%nat) =
  ok (acc ++ map (fun k => star_point g (rng (2 * k)%nat) (rng (2 * k + 1)%nat))
               (seq j (length xs)),
      (2 * (j + length xs))%nat).
Proof.
  intros Hbody; revert acc j; induction xs as [|x xs IH]; intros acc j.
  - cbn [for_each length seq map]; rewrite app_nil_r, Nat.add_0_r.
    reflexivity.
  - cbn [for_each]; rewrite Hbody; cbn [bind ok].
    replace (S (S (2 * j))) with (2 * S j)%nat by lia.
    fold (@ok (list point * nat)); rewrite IH.
    cbn [length seq map]; rewrite <- app_assoc; cbn [app].
    replace (S (2 * j)) with (2 * j + 1)%nat by lia.
    replace (S j + length xs)%nat with (j + S (length xs))%nat by lia.
    reflexivity.
Qed.

(** X1.  [generate_stars] never raises.  It returns [num_stars] points (none
    when [num_stars] is negative), and star [k] is the point the loop body
    places from samples [2k] and [2k + 1] of the generator, the first as
    the angle around the z axis and the second as the angle from it. *)
Theorem generate_stars_samples (g : globals) (rng : nat -> R) :
  exists stars,
    generate_stars g rng = ok stars /\
    length stars = Z.to_nat (num_stars g) /\
    (forall k, (k < Z.to_nat (num_stars g))%nat ->
       nth_error stars k =
       Some (star_point g (rng (2 * k)%nat) (rng (2 * k + 1)%nat))).
Proof.
  unfold generate_stars.
  match goal with
  | |- context [for_each ?xs ?body ?s0] =>
      pose proof (generate_stars_loop g rng body xs [] 0
                    (fun x stars n => eq_refl)) as L;
      change (for_each xs body s0 = ok
                (map (fun k => star_point g (rng (2 * k)%nat)
                                 (rng (2 * k + 1)%nat))
                   (seq 0 (length xs)),
                 (2 * (0 + length xs))%nat)) in L;
      rewrite L
  end.
  cbn [bind]; rewrite range_length.
  eexists; split; [reflexivity|].
  split; [rewrite length_map, length_seq; reflexivity|].
  intros k Hk; rewrite nth_error_map.
  rewrite nth_error_nth' with (d := O) by (rewrite length_seq; exact Hk).
  rewrite seq_nth by exact Hk; reflexivity.
Qed.

(** X4.  [create_ring] raises exactly when [segments] is zero, and then
    [ZeroDivisionError]; a negative [segments] is accepted and gives a mesh
    with no vertex and no index. *)
Theorem create_ring_raises_iff (radius thickness : R) (segments : Z)
    (horizontal : bool) :
  (forall e,
     create_ring radius thickness segments horizontal = raise e <->
     segments = 0%Z /\ e = ZeroDivisionError) /\
  ((segments < 0)%Z ->
   create_ring radius thickness segments horizontal = ok ([], [])).
Proof.
  split.
  - intros e; split.
    + intros E; destruct (Z.eq_dec segments 0) as [->|Hne].
      * rewrite create_ring_zero_segments in E.
        split; [reflexivity|]. unfold raise in E; congruence.
      * rewrite create_ring_ok in E by exact Hne; discriminate.
    + intros [-> ->]; apply create_ring_zero_segments.
  - intros Hneg; rewrite create_ring_ok by lia.
    rewrite !range_nonpos by lia; reflexivity.
Qed.

Lemma create_ring_raises_iff_witness :
  create_ring 1.5 0.5 0 true = raise ZeroDivisionError /\
  create_ring 1.5 0.5 (-3) true = ok ([], []).
Proof.
  destruct (create_ring_raises_iff 1.5 0.5 0 true) as [H0 _].
  destruct (create_ring_raises_iff 1.5 0.5 (-3) true) as [_ Hneg].
  split; [apply H0; split; reflexivity|apply Hneg; lia].
Defined.

Lemma create_sphere_zero_lat (g : globals) :
  lat_bands g = 0%Z -> create_sphere g = raise ZeroDivisionError.
Proof. intros H; unfold create_sphere; cbv zeta; rewrite H; reflexivity. Qed.

Lemma create_sphere_zero_long (g : globals) :
  (1 <= lat_bands g)%Z -> long_bands g = 0%Z ->
  create_sphere g = raise ZeroDivisionError.
Proof.
  intros Hlat Hlong; unfold create_sphere; cbv zeta; rewrite Hlong.
  destruct (range_first (lat_bands g + 1)) as [rest ->]; [lia|].
  cbn [for_each]; rewrite truediv_nonzero by lia.
  reflexivity.
Qed.

Lemma create_sphere_negative_lat (g : globals) :
  (lat_bands g < 0)%Z -> create_sphere g = ok ([], [], []).
Proof.
  intros H; unfold create_sphere; cbv zeta.
  rewrite !(range_nonpos (lat_bands g + 1)), !(range_nonpos (lat_bands g))
    by lia.
  reflexivity.
Qed.

(** X5.  [create_sphere] raises exactly when [lat_bands] is zero, or
    [lat_bands] is positive and [long_bands] is zero, and then
    [ZeroDivisionError]; with a negative [lat_bands] it returns three empty
    arrays, whatever [long_bands] is. *)
Theorem create_sphere_raises_iff (g : globals) :
  (forall e,
     create_sphere g = raise e <->
     (lat_bands g = 0%Z \/ (1 <= lat_bands g)%Z /\ long_bands g = 0%Z) /\
     e = ZeroDivisionError) /\
  ((lat_bands g < 0)%Z -> create_sphere g = ok ([], [], [])).
Proof.
  split; [|apply create_sphere_negative_lat].
  intros e; split.
  - intros E.
    destruct (Z.eq_dec (lat_bands g) 0) as [Hlat|Hlat].
    { rewrite create_sphere_zero_lat in E by exact Hlat.
      split; [left; exact Hlat|unfold raise in E; congruence]. }
    destruct (Z_lt_le_dec (lat_bands g) 0) as [Hneg|Hpos].
    { rewrite create_sphere_negative_lat in E by exact Hneg; discriminate. }
    destruct (Z.eq_dec (long_bands g) 0) as [Hlong|Hlong].
    { rewrite create_sphere_zero_long in E by lia.
      split; [right; split; [lia|exact Hlong]|unfold raise in E; congruence]. }
    rewrite create_sphere_ok in E by assumption; discriminate.
  - intros [[Hlat|[Hlat Hlong]] ->].
    + apply create_sphere_zero_lat; exact Hlat.
    + apply create_sphere_zero_long; assumption.
Qed.

Lemma create_sphere_raises_iff_witness :
  create_sphere
    {| radius := 1.5; lat_bands := 50; long_bands := 0;
       ring_params := ring_params module_globals;
       additional_ring_params := additional_ring_params module_globals;
       horizontal_ring_params := horizontal_ring_params module_globals;
       num_stars := 150; star_distance := 100; star_size := 1 |} =
    raise ZeroDivisionError /\
  create_sphere
    {| radius := 1.5; lat_bands := -2; long_bands := 0;
       ring_params := ring_params module_globals;
       additional_ring_params := additional_ring_params module_globals;
       horizontal_ring_params := horizontal_ring_params module_globals;
       num_stars := 150; star_distance := 100; star_size := 1 |} =
    ok ([], [], []).
Proof.
  split.
  - apply create_sphere_raises_iff.
    split; [right; simpl; split; [lia|reflexivity]|reflexivity].
  - apply create_sphere_raises_iff; simpl; lia.
Defined.

(** ** Layout of the sphere *)

Lemma flat_map_block_nth_error {A B : Type} (F : A -> list B) (k : nat)
    (xs : list A) (i j : nat) (x : A) :
  (forall y, In y xs -> length (F y) = k) ->
  nth_error xs i = Some x -> (j < k)%nat ->
  nth_error (flat_map F xs) (i * k + j) = nth_error (F x) j.
Proof.
  revert i; induction xs as [|y xs IH]; intros i Hlen Hi Hj.
  - destruct i; discriminate.
  - destruct i as [|i]; cbn [flat_map].
    + injection Hi as ->. cbn [Nat.mul Nat.add].
      apply nth_error_app1; rewrite Hlen by (left; reflexivity); exact Hj.
    + rewrite nth_error_app2
        by (rewrite Hlen by (left; reflexivity); simpl; lia).
      rewrite Hlen by (left; reflexivity).
      replace (S i * k + j - k)%nat with (i * k + j)%nat by (simpl; lia).
      apply IH; [intros z Hz; apply Hlen; right; exact Hz|exact Hi|exact Hj].
Qed.

Lemma grid_nth_error {B : Type} (f : Z -> Z -> B) (rows cols : Z)
    (i j : nat) :
  (Z.of_nat i < rows)%Z -> (Z.of_nat j < cols)%Z ->
  nth_error (flat_map (fun lat => map (f lat) (range cols)) (range rows))
    (i * Z.to_nat cols + j) = Some (f (Z.of_nat i) (Z.of_nat j)).
Proof.
  intros Hi Hj.
  rewrite (flat_map_block_nth_error _ (Z.to_nat cols) _ i j (Z.of_nat i)).
  - rewrite nth_error_map, range_nth_error by exact Hj; reflexivity.
  - intros y _; rewrite length_map; apply range_length.
  - apply range_nth_error; exact Hi.
  - lia.
Qed.

Lemma sphere_position_north (g : globals) (long : Z) :
  sphere_position g 0 long = (0, radius g, 0).
Proof.
  unfold sphere_position, sphere_normal; cbv zeta.
  replace (IZR 0 * PI / IZR (lat_bands g)) with 0 by (unfold Rdiv; ring).
  rewrite sin_0, cos_0; repeat f_equal; ring.
Qed.

(** X6.  For [lat_bands, long_bands >= 1] the arrays [create_sphere]
    returns are row-major with stride [long_bands + 1]: the entry at
    position [lat * (long_bands + 1) + long] of the vertex array is the
    point of the grid sample [(lat, long)], and the entry at the same
    position of the normal array is its normal.  These are the positions
    the index loop computes as [first] (and, one row further, [second]). *)
Theorem create_sphere_row_major (g : globals) (lat long : nat) :
  (1 <= lat_bands g)%Z -> (1 <= long_bands g)%Z ->
  (Z.of_nat lat <= lat_bands g)%Z -> (Z.of_nat long <= long_bands g)%Z ->
  exists vertices normals indices,
    create_sphere g = ok (vertices, normals, indices) /\
    nth_error vertices (lat * Z.to_nat (long_bands g + 1) + long) =
      Some (sphere_position g (Z.of_nat lat) (Z.of_nat long)) /\
    nth_error normals (lat * Z.to_nat (long_bands g + 1) + long) =
      Some (sphere_normal g (Z.of_nat lat) (Z.of_nat long)).
Proof.
  intros Hlat Hlong Hi Hj.
  eexists; eexists; eexists; split; [apply create_sphere_ok; lia|].
  split; apply grid_nth_error; lia.
Qed.

Lemma create_sphere_row_major_witness :
  exists vertices normals indices,
    create_sphere module_globals = ok (vertices, normals, indices) /\
    nth_error vertices (2 * Z.to_nat (50 + 1) + 7) =
      Some (sphere_position module_globals (Z.of_nat 2) (Z.of_nat 7)) /\
    nth_error normals (2 * Z.to_nat (50 + 1) + 7) =
      Some (sphere_normal module_globals (Z.of_nat 2) (Z.of_nat 7)).
Proof.
  apply (create_sphere_row_major module_globals 2 7); simpl; lia.
Defined.

(** X7.  For [lat_bands, long_bands >= 1] the first row of the vertex array
    is [long_bands + 1] copies of the pole [(0, radius, 0)]: at [lat = 0]
    the angle from the pole is 0, whose sine is 0 and whose cosine is 1. *)
Theorem create_sphere_north_pole (g : globals) (long : nat) :
  (1 <= lat_bands g)%Z -> (1 <= long_bands g)%Z ->
  (Z.of_nat long <= long_bands g)%Z ->
  exists vertices normals indices,
    create_sphere g = ok (vertices, normals, indices) /\
    nth_error vertices long = Some (0, radius g, 0).
Proof.
  intros Hlat Hlong Hj.
  eexists; eexists; eexists; split; [apply create_sphere_ok; lia|].
  change long with (0 * Z.to_nat (long_bands g + 1) + long)%nat at 1.
  rewrite grid_nth_error by lia.
  rewrite sphere_position_north; reflexivity.
Qed.

Lemma create_sphere_north_pole_witness :
  exists vertices normals indices,
    create_sphere module_globals = ok (vertices, normals, indices) /\
    nth_error vertices 50 = Some (0, radius module_globals, 0).
Proof.
  apply (create_sphere_north_pole module_globals 50); simpl; lia.
Defined.

(** ** What the index arrays reference *)

(** X10.  For [segments >= 1] the indices [create_ring] emits are exactly
    the positions [0 .. 2 * segments - 1]: each of these vertices is a
    corner of some triangle, and nothing else is referenced. *)
Theorem create_ring_indices_cover (radius thickness : R) (segments : Z)
    (horizontal : bool) :
  (1 <= segments)%Z ->
  exists vertices indices,
    create_ring radius thickness segments horizontal = ok (vertices, indices) /\
    forall j, In j indices <-> (0 <= j < 2 * segments)%Z.
Proof.
  intros H.
  eexists; eexists; split; [apply create_ring_ok; lia|].
  intros j; split.
  - intros Hin.
    pose proof (ring_indices_bound segments) as B.
    rewrite Forall_forall in B; specialize (B j Hin); cbv beta in B; lia.
  - intros Hj; apply in_flat_map.
    exists (j / 2)%Z; split.
    + apply in_range.
      split; [apply Z.div_pos; lia|apply Z.div_lt_upper_bound; lia].
    + pose proof (Z.div_mod j 2 ltac:(lia)) as D.
      pose proof (Z.mod_pos_bound j 2 ltac:(lia)) as M.
      unfold ring_cell; cbv zeta.
      destruct (Z.eq_dec (j mod 2) 0) as [E|E].
      * left; lia.
      * do 5 right; left; lia.
Qed.

Lemma create_ring_indices_cover_witness :
  exists vertices indices,
    create_ring 1.5 0.5 100 false = ok (vertices, indices) /\
    forall j, In j indices <-> (0 <= j < 2 * 100)%Z.
Proof.
  apply (create_ring_indices_cover 1.5 0.5 100 false); lia.
Defined.

(** X11.  For [lat_bands, long_bands >= 1] the indices [create_sphere]
    emits are exactly the positions of its vertex array: every vertex,
    the duplicated pole and seam vertices included, is a corner of some
    triangle. *)
Theorem create_sphere_indices_cover (g : globals) :
  (1 <= lat_bands g)%Z -> (1 <= long_bands g)%Z ->
  exists vertices normals indices,
    create_sphere g = ok (vertices, normals, indices) /\
    forall j, In j indices <-> (0 <= j < Z.of_nat (length vertices))%Z.
Proof.
  intros Hlat Hlong.
  eexists; eexists; eexists; split; [apply create_sphere_ok; lia|].
  rewrite sphere_grid_length by lia.
  set (L := long_bands g) in *; set (N := lat_bands g) in *.
  intros j; split.
  - intros Hin.
    apply in_flat_map in Hin as (lat & Hlat' & Hin).
    apply in_flat_map in Hin as (long & Hlong' & Hin).
    apply in_range in Hlat', Hlong'.
    pose proof (sphere_cell_bound g lat long Hlat' Hlong') as B.
    rewrite Forall_forall in B; exact (B j Hin).
  - intros Hj.
    pose proof (Z.div_mod j (L + 1) ltac:(lia)) as D.
    pose proof (Z.mod_pos_bound j (L + 1) ltac:(lia)) as M.
    set (a := (j / (L + 1))%Z) in *; set (b := (j mod (L + 1))%Z) in *.
    assert (Ha : (0 <= a <= N)%Z).
    { split; [apply Z.div_pos; lia|].
      apply Z.lt_succ_r, Z.div_lt_upper_bound; lia. }
    assert (Hcell : forall lat long,
               (0 <= lat < N)%Z -> (0 <= long < L)%Z ->
               In j (sphere_cell g lat long) ->
               In j (flat_map
                       (fun lat => flat_map (sphere_cell g lat) (range L))
                       (range N))).
    { intros lat long Hl Hg Hin.
      apply in_flat_map; exists lat; split; [apply in_range; exact Hl|].
      apply in_flat_map; exists long; split; [apply in_range; exact Hg|].
      exact Hin. }
    destruct (Z_lt_le_dec a N) as [HaN|HaN];
      destruct (Z_lt_le_dec b L) as [HbL|HbL].
    + apply (Hcell a b); [lia|lia|].
      unfold sphere_cell; cbv zeta; fold L. left; lia.
    + apply (Hcell a (b - 1)%Z); [lia|lia|].
      unfold sphere_cell; cbv zeta; fold L. do 2 right; left; lia.
    + apply (Hcell (a - 1)%Z b); [lia|lia|].
      unfold sphere_cell; cbv zeta; fold L. right; left; lia.
    + apply (Hcell (a - 1)%Z (b - 1)%Z); [lia|lia|].
      unfold sphere_cell; cbv zeta; fold L. do 4 right; left; lia.
Qed.

Lemma create_sphere_indices_cover_witness :
  exists vertices normals indices,
    create_sphere module_globals = ok (vertices, normals, indices) /\
    forall j, In j indices <-> (0 <= j < Z.of_nat (length vertices))%Z.
Proof.
  apply (create_sphere_indices_cover module_globals); simpl; lia.
Defined.

(** ** Triangles *)

Lemma triangles_app (n : nat) (l1 l2 : list Z) :
  length l1 = (3 * n)%nat ->
  triangles (l1 ++ l2) = triangles l1 ++ triangles l2.
Proof.
  revert l1; induction n as [|n IH]; intros l1 H.
  - destruct l1; [reflexivity|discriminate].
  - destruct l1 as [|a [|b [|c l1]]]; simpl in H; try lia.
    cbn [app triangles]; rewrite IH by lia; reflexivity.
Qed.

Lemma triangles_flat_map {A : Type} (F : A -> list Z) (xs : list A) :
  (forall x, exists n, length (F x) = (3 * n)%nat) ->
  triangles (flat_map F xs) = flat_map (fun x => triangles (F x)) xs.
Proof.
  intros H; induction xs as [|x xs IH]; [reflexivity|].
  cbn [flat_map]; destruct (H x) as [n Hn].
  rewrite (triangles_app n) by exact Hn; rewrite IH; reflexivity.
Qed.

Lemma ring_cell_triangles (segments i : Z) :
  (2 <= segments)%Z -> (0 <= i < segments)%Z ->
  Forall distinct_corners (triangles (ring_cell segments i)).
Proof.
  intros Hseg Hi; unfold ring_cell; cbv zeta; cbn [triangles].
  assert (Hn : ((i + 1) mod segments <> i)%Z).
  { destruct (Z.eq_dec (i + 1) segments) as [E|E].
    - rewrite E, Z_mod_same_full; lia.
    - rewrite Z.mod_small by lia; lia. }
  repeat constructor; lia.
Qed.

(** X12.  For [segments >= 2] the index array of [create_ring] is read as
    [2 * segments] triangles, and no triangle names the same vertex
    twice. *)
Theorem create_ring_triangles (radius thickness : R) (segments : Z)
    (horizontal : bool) :
  (2 <= segments)%Z ->
  exists vertices indices,
    create_ring radius thickness segments horizontal = ok (vertices, indices) /\
    length (triangles indices) = (2 * Z.to_nat segments)%nat /\
    Forall distinct_corners (triangles indices).
Proof.
  intros H.
  eexists; eexists; split; [apply create_ring_ok; lia|].
  rewrite triangles_flat_map by (intros x; exists 2%nat; reflexivity).
  split.
  - rewrite (flat_map_length_const _ 2) by reflexivity.
    rewrite range_length; reflexivity.
  - apply flat_map_Forall; intros i Hi.
    apply ring_cell_triangles; [exact H|apply in_range; exact Hi].
Qed.

Lemma create_ring_triangles_witness :
  exists vertices indices,
    create_ring 1.5 0.5 2 false = ok (vertices, indices) /\
    length (triangles indices) = (2 * Z.to_nat 2)%nat /\
    Forall distinct_corners (triangles indices).
Proof.
  apply (create_ring_triangles 1.5 0.5 2 false); lia.
Defined.

Lemma sphere_cell_triangles (g : globals) (lat long : Z) :
  (1 <= long_bands g)%Z ->
  Forall distinct_corners (triangles (sphere_cell g lat long)).
Proof.
  intros H; unfold sphere_cell; cbv zeta; cbn [triangles].
  repeat constructor; lia.
Qed.

(** X13.  For [lat_bands, long_bands >= 1] the index array of
    [create_sphere] is read as [2 * lat_bands * long_bands] triangles, and
    no triangle names the same vertex twice. *)
Theorem create_sphere_triangles (g : globals) :
  (1 <= lat_bands g)%Z -> (1 <= long_bands g)%Z ->
  exists vertices normals indices,
    create_sphere g = ok (vertices, normals, indices) /\
    Z.of_nat (length (triangles indices)) =
      (2 * lat_bands g * long_bands g)%Z /\
    Forall distinct_corners (triangles indices).
Proof.
  intros Hlat Hlong.
  eexists; eexists; eexists; split; [apply create_sphere_ok; lia|].
  assert (Hinner : forall lat,
             triangles (flat_map (sphere_cell g lat) (range (long_bands g))) =
             flat_map (fun long => triangles (sphere_cell g lat long))
               (range (long_bands g))).
  { intros lat; apply triangles_flat_map.
    intros x; exists 2%nat; reflexivity. }
  rewrite triangles_flat_map.
  2:{ intros lat; exists (2 * Z.to_nat (long_bands g))%nat.
      rewrite (flat_map_length_const _ 6) by reflexivity.
      rewrite range_length; lia. }
  rewrite (flat_map_ext _ _ Hinner).
  split.
  - rewrite (flat_map_length_const _ (2 * Z.to_nat (long_bands g))).
    + rewrite range_length; nia.
    + intros lat _.
      rewrite (flat_map_length_const _ 2) by reflexivity.
      rewrite range_length; reflexivity.
  - apply flat_map_Forall; intros lat _.
    apply flat_map_Forall; intros long _.
    apply sphere_cell_triangles; exact Hlong.
Qed.

Lemma create_sphere_triangles_witness :
  exists vertices normals indices,
    create_sphere module_globals = ok (vertices, normals, indices) /\
    Z.of_nat (length (triangles indices)) = (2 * 50 * 50)%Z /\
    Forall distinct_corners (triangles indices).
Proof.
  apply (create_sphere_triangles module_globals); simpl; lia.
Defined.

(** X14.  For [segments >= 1] the last six indices [create_ring] emits join
    the sample [segments - 1] to the vertices 0 and 1 of the first sample:
    the band is closed through the modulo, not through the pair appended
    for the sample [segments]. *)
Theorem create_ring_last_quad_wraps (radius thickness : R) (segments : Z)
    (horizontal : bool) :
  (1 <= segments)%Z ->
  exists vertices indices,
    create_ring radius thickness segments horizontal = ok (vertices, indices) /\
    skipn (6 * Z.to_nat (segments - 1)) indices =
      [2 * (segments - 1); 0; 1; 2 * (segments - 1); 1; 2 * segments - 1]%Z.
Proof.
  intros H.
  eexists; eexists; split; [apply create_ring_ok; lia|].
  rewrite range_last by exact H.
  rewrite flat_map_app.
  rewrite skipn_app.
  rewrite (flat_map_length_const _ 6) by reflexivity.
  rewrite range_length.
  rewrite skipn_all2
    by (rewrite (flat_map_length_const _ 6) by reflexivity;
        rewrite range_length; lia).
  rewrite Nat.sub_diag; cbn [app skipn flat_map].
  unfold ring_cell; cbv zeta.
  replace (segments - 1 + 1)%Z with segments by lia.
  rewrite Z_mod_same_full, app_nil_r.
  repeat (apply f_equal2; [lia|]); reflexivity.
Qed.

Lemma create_ring_last_quad_wraps_witness :
  exists vertices indices,
    create_ring 1.5 0.5 100 false = ok (vertices, indices) /\
    skipn (6 * Z.to_nat (100 - 1)) indices =
      [2 * (100 - 1); 0; 1; 2 * (100 - 1); 1; 2 * 100 - 1]%Z.
Proof.
  apply (create_ring_last_quad_wraps 1.5 0.5 100 false); lia.
Defined.

(** ** What the drawing functions leave behind *)

Lemma truthy_zero : truthy 0 = false.
Proof. unfold truthy; destruct (Req_dec_T 0 0); [reflexivity|lra]. Qed.

Lemma truthy_nonzero (x : R) : x <> 0 -> truthy x = true.
Proof.
  intros H; unfold truthy; destruct (Req_dec_T x 0); [contradiction|].
  reflexivity.
Qed.

(** X15.  [draw_object] adds exactly one batch, drawn from the arrays it is
    given.  It sets the line width only when [line_width] is not zero.  It
    always leaves the vertex array disabled and the matrix untouched.
    Called with [use_normal] it leaves lighting and the normal array
    disabled; otherwise it leaves both as it found them. *)
Theorem draw_object_effect (vertices : list point) (indices : list Z)
    (rgb : point) (width : R) (use_normal : bool) (c : gl_ctx) :
  exists s,
    drawn (draw_object vertices indices rgb width use_normal c) =
      drawn c ++ [s] /\
    sub_points s = vertices /\ sub_indices s = indices /\
    (width = 0 ->
     line_width (state (draw_object vertices indices rgb width use_normal c)) =
       line_width (state c)) /\
    (width <> 0 ->
     line_width (state (draw_object vertices indices rgb width use_normal c)) =
       width) /\
    vertex_array (state (draw_object vertices indices rgb width use_normal c)) =
      false /\
    matrix (state (draw_object vertices indices rgb width use_normal c)) =
      matrix (state c) /\
    lighting (state (draw_object vertices indices rgb width use_normal c)) =
      (if use_normal then false else lighting (state c)) /\
    normal_array (state (draw_object vertices indices rgb width use_normal c)) =
      (if use_normal then false else normal_array (state c)).
Proof.
  unfold draw_object, seq_gl.
  destruct (Req_dec_T width 0) as [Hw|Hw].
  - subst width; rewrite truthy_zero.
    destruct use_normal; eexists; (split; [reflexivity|]);
      cbn -[Rdiv IZR]; rewrite firstn_all; repeat split;
      intros H; contradiction H; reflexivity.
  - rewrite (truthy_nonzero width Hw).
    destruct use_normal; eexists; (split; [reflexivity|]);
      cbn -[Rdiv IZR]; rewrite firstn_all; repeat split;
      intros H; contradiction.
Qed.

Lemma draw_object_effect_witness :
  exists s,
    drawn (draw_object [(0, 0, 0)] [0%Z; 0%Z; 0%Z] (1, 1, 1) 0 true
             default_ctx) = drawn default_ctx ++ [s] /\
    sub_points s = [(0, 0, 0)] /\ sub_indices s = [0%Z; 0%Z; 0%Z] /\
    line_width (state (draw_object [(0, 0, 0)] [0%Z; 0%Z; 0%Z] (1, 1, 1) 0
                         true default_ctx)) =
      line_width (state default_ctx) /\
    lighting (state (draw_object [(0, 0, 0)] [0%Z; 0%Z; 0%Z] (1, 1, 1) 0
                       true default_ctx)) = false.
Proof.
  destruct (draw_object_effect [(0, 0, 0)] [0%Z; 0%Z; 0%Z] (1, 1, 1) 0 true
              default_ctx)
    as (s & D & P & I & W0 & _ & _ & _ & L & _).
  exists s.
  split; [exact D|]. split; [exact P|]. split; [exact I|].
  split; [apply W0; reflexivity|exact L].
Defined.

Lemma draw_stars_matrix (g : globals) (ps : list point) (c : gl_ctx) :
  matrix (state (draw_stars g ps c)) = matrix (state c) /\
  matrix_stack (state (draw_stars g ps c)) = matrix_stack (state c) /\
  Forall (fun s => matrix (sub_state s) = matrix (state c))
    (skipn (length (drawn c)) (drawn (draw_stars g ps c))).
Proof.
  unfold draw_stars, seq_gl; rewrite fold_glVertex3fv.
  cbn -[Rdiv IZR skipn].
  rewrite skipn_app, skipn_all, Nat.sub_diag.
  repeat split; repeat constructor.
Qed.

Lemma draw_object_matrix (vertices : list point) (indices : list Z)
    (rgb : point) (use_normal : bool) (c : gl_ctx) :
  matrix (state (draw_object vertices indices rgb 2.0 use_normal c)) =
    matrix (state c) /\
  matrix_stack (state (draw_object vertices indices rgb 2.0 use_normal c)) =
    matrix_stack (state c) /\
  exists s,
    drawn (draw_object vertices indices rgb 2.0 use_normal c) =
      drawn c ++ [s] /\
    matrix (sub_state s) = matrix (state c).
Proof.
  unfold draw_object, seq_gl; rewrite truthy_two.
  destruct use_normal; repeat split; eexists; split; reflexivity.
Qed.

(** X16.  A frame leaves the matrix and the matrix stack of the context as
    it found them, and draws each of its batches under the matrix it found
    followed by the rotation by [rot_x] about the x axis and then the
    rotation by [rot_y] about the y axis: the rotations of one frame do not
    reach the next. *)
Theorem draw_frame_restores_matrix (g : globals) (sc : scene) (c : camera)
    (ctx : gl_ctx) :
  matrix (state (draw_frame g sc c ctx)) = matrix (state ctx) /\
  matrix_stack (state (draw_frame g sc c ctx)) = matrix_stack (state ctx) /\
  Forall
    (fun s =>
       matrix (sub_state s) =
       matrix (state ctx) ++ [Rotate (rot_x c) 1 0 0; Rotate (rot_y c) 0 1 0])
    (drawn (draw_frame g sc c ctx)).
Proof.
  unfold draw_frame, seq_gl.
  set (c0 := glRotatef (rot_y c) 0 1 0
               (glRotatef (rot_x c) 1 0 0 (glPushMatrix (glClear ctx)))).
  assert (D0 : drawn c0 = []) by reflexivity.
  assert (M0 : matrix (state c0) =
               matrix (state ctx) ++
               [Rotate (rot_x c) 1 0 0; Rotate (rot_y c) 0 1 0])
    by (cbn; rewrite <- app_assoc; reflexivity).
  assert (S0 : matrix_stack (state c0) =
               matrix (state ctx) :: matrix_stack (state ctx)) by reflexivity.
  destruct (draw_stars_matrix g (stars sc) c0) as (M1 & S1 & F1).
  destruct (draw_stars_drawn g (stars sc) c0) as (s0 & E0 & _).
  rewrite D0 in F1, E0; cbn [length skipn app] in F1, E0.
  set (c1 := draw_stars g (stars sc) c0) in *.
  destruct (draw_object_matrix (sphere_vertices sc) (sphere_indices sc)
              (0.06, 0.06, 0.06) true c1) as (M2 & S2 & s1 & E1 & N1).
  set (c2 := draw_object _ _ _ _ true c1) in *.
  destruct (draw_object_matrix (ring_vertices sc) (ring_indices sc)
              (1.0, 0.5, 0.0) false c2) as (M3 & S3 & s2 & E2 & N2).
  set (c3 := draw_object _ _ _ _ false c2) in *.
  destruct (draw_object_matrix (additional_ring_vertices sc)
              (additional_ring_indices sc) (1.0, 0.5, 0.0) false c3)
    as (M4 & S4 & s3 & E3 & N3).
  set (c4 := draw_object _ _ _ _ false c3) in *.
  destruct (draw_object_matrix (horizontal_ring_vertices sc)
              (horizontal_ring_indices sc) (1.0, 0.5, 0.0) false c4)
    as (M5 & S5 & s4 & E4 & N4).
  set (c5 := draw_object _ _ _ _ false c4) in *.
  assert (S : matrix_stack (state c5) =
              matrix (state ctx) :: matrix_stack (state ctx))
    by (rewrite S5, S4, S3, S2, S1; exact S0).
  unfold glPopMatrix, on_state; cbn [state drawn]; rewrite S.
  cbn [matrix matrix_stack set_matrix].
  split; [reflexivity|]. split; [reflexivity|].
  rewrite E4, E3, E2, E1, E0.
  rewrite M4, M3, M2, M1, M0 in N4; rewrite M3, M2, M1, M0 in N3.
  rewrite M2, M1, M0 in N2; rewrite M1, M0 in N1; rewrite M0 in F1.
  rewrite E0 in F1; apply Forall_inv in F1.
  cbn [app]; repeat constructor; assumption.
Qed.

(** ** How the loop ends and what it keeps *)

Lemma handle_event_outcome (ev : event) (c : camera) :
  (quits ev = true /\ handle_event ev c = raise SystemExit) \/
  (quits ev = false /\ exists c', handle_event ev c = ok c').
Proof.
  destruct ev as [[| b | b | |] pos]; unfold quits; simpl.
  - left; split; reflexivity.
  - right; split; [reflexivity|]. destruct (b =? 1)%Z; eexists; reflexivity.
  - right; split; [reflexivity|]. destruct (b =? 1)%Z; eexists; reflexivity.
  - right; split; [reflexivity|].
    destruct (mouse_down c); [destruct pos|]; eexists; reflexivity.
  - right; split; [reflexivity|]. eexists; reflexivity.
Qed.

Lemma events_outcome (events : list event) (c : camera) :
  (existsb quits events = true /\
   for_each events handle_event c = raise SystemExit) \/
  (existsb quits events = false /\
   exists c', for_each events handle_event c = ok c').
Proof.
  revert c; induction events as [|ev events IH]; intros c.
  - right; split; [reflexivity|]. exists c; reflexivity.
  - cbn [existsb for_each].
    destruct (handle_event_outcome ev c) as [[Q E]|[Q [c' E]]];
      rewrite Q, E; unfold raise, ok; cbn [orb bind].
    + left; split; reflexivity.
    + apply IH.
Qed.

Lemma frame_outcome (g : globals) (sc : scene) (events : list event)
    (c : camera) (ctx : gl_ctx) :
  (existsb quits events = true /\
   frame g sc events (c, ctx) = raise SystemExit) \/
  (existsb quits events = false /\
   exists c', frame g sc events (c, ctx) = ok (c', draw_frame g sc c' ctx)).
Proof.
  unfold frame.
  destruct (events_outcome events c) as [[Q E]|[Q [c' E]]]; rewrite E.
  - left; split; [exact Q|reflexivity].
  - right; split; [exact Q|]. eexists; reflexivity.
Qed.

(** X17.  The loop raises only in [quit()]: over any feed, from any state,
    [main_loop] raises exactly when some frame of the feed holds a [QUIT]
    event, and what it raises is [SystemExit]. *)
Theorem main_loop_raises_iff (g : globals) (sc : scene)
    (feed : list (list event)) (c : camera) (ctx : gl_ctx) (e : exn) :
  main_loop g sc feed (c, ctx) = raise e <->
  has_quit feed = true /\ e = SystemExit.
Proof.
  unfold main_loop, has_quit.
  revert c ctx; induction feed as [|events feed IH]; intros c ctx.
  - simpl; split; [discriminate|intros [H _]; discriminate].
  - cbn [for_each existsb].
    destruct (frame_outcome g sc events c ctx) as [[Q E]|[Q [c' E]]];
      rewrite Q, E; unfold raise, ok; cbn [bind orb].
    + split.
      * intros H; split; [reflexivity|congruence].
      * intros [_ ->]; reflexivity.
    + apply IH.
Qed.





(** ** How the program ends *)

Lemma create_sphere_cases (g : globals) :
  (sphere_divides_by_zero g /\ create_sphere g = raise ZeroDivisionError) \/
  (~ sphere_divides_by_zero g /\ exists m, create_sphere g = ok m).
Proof.
  unfold sphere_divides_by_zero.
  destruct (Z.eq_dec (lat_bands g) 0) as [Hlat|Hlat].
  { left; split; [left; exact Hlat|apply create_sphere_zero_lat, Hlat]. }
  destruct (Z_lt_le_dec (lat_bands g) 0) as [Hneg|Hpos].
  { right; split; [lia|].
    eexists; apply create_sphere_negative_lat; exact Hneg. }
  destruct (Z.eq_dec (long_bands g) 0) as [Hlong|Hlong].
  { left; split; [right; split; [lia|exact Hlong]|].
    apply create_sphere_zero_long; [lia|exact Hlong]. }
  right; split; [lia|]. eexists; apply create_sphere_ok; assumption.
Qed.

Lemma create_ring_cases (radius thickness : R) (segments : Z)
    (horizontal : bool) :
  (segments = 0%Z /\
   create_ring radius thickness segments horizontal =
     raise ZeroDivisionError) \/
  (segments <> 0%Z /\
   exists m, create_ring radius thickness segments horizontal = ok m).
Proof.
  destruct (Z.eq_dec segments 0) as [->|H].
  - left; split; [reflexivity|apply create_ring_zero_segments].
  - right; split; [exact H|]. eexists; apply create_ring_ok; exact H.
Qed.

Lemma create_scene_cases (g : globals) (rng : nat -> R) :
  (divides_by_zero g /\ create_scene g rng = raise ZeroDivisionError) \/
  (~ divides_by_zero g /\ exists sc, create_scene g rng = ok sc).
Proof.
  unfold divides_by_zero, create_scene.
  destruct (create_sphere_cases g) as [[B E]|[B [[[sv sn] si] E]]]; rewrite E.
  { left; split; [left; exact B|reflexivity]. }
  unfold ok; cbn [bind].
  destruct (create_ring_cases (rk_radius (ring_params g))
              (rk_thickness (ring_params g)) (rk_segments (ring_params g))
              false) as [[B1 E1]|[B1 [[rv ri] E1]]]; rewrite E1.
  { left; split; [right; left; exact B1|reflexivity]. }
  unfold ok; cbn [bind].
  destruct (create_ring_cases (rk_radius (additional_ring_params g))
              (rk_thickness (additional_ring_params g))
              (rk_segments (additional_ring_params g)) false)
    as [[B2 E2]|[B2 [[av ai] E2]]]; rewrite E2.
  { left; split; [right; right; left; exact B2|reflexivity]. }
  unfold ok; cbn [bind].
  destruct (create_ring_cases (rk_radius (horizontal_ring_params g))
              (rk_thickness (horizontal_ring_params g))
              (rk_segments (horizontal_ring_params g)) true)
    as [[B3 E3]|[B3 [[hv hi] E3]]]; rewrite E3.
  { left; split; [right; right; right; exact B3|reflexivity]. }
  unfold ok; cbn [bind].
  destruct (generate_stars_ok g rng) as [ps Es]; rewrite Es.
  right; split; [tauto|]. eexists; reflexivity.
Qed.

Lemma main_loop_cases (g : globals) (sc : scene) (feed : list (list event))
    (s : camera * gl_ctx) :
  (has_quit feed = true /\ main_loop g sc feed s = raise SystemExit) \/
  (has_quit feed = false /\ exists s', main_loop g sc feed s = ok s').
Proof.
  unfold main_loop, has_quit.
  revert s; induction feed as [|events feed IH]; intros [c ctx].
  - right; split; [reflexivity|]. eexists; reflexivity.
  - cbn [for_each existsb].
    destruct (frame_outcome g sc events c ctx) as [[Q E]|[Q [c' E]]];
      rewrite Q, E; unfold raise, ok; cbn [bind orb].
    + left; split; reflexivity.
    + apply IH.
Qed.

(** X22.  The program ends in one of three ways, decided by the
    configuration first and the feed second.  It raises
    [ZeroDivisionError], before any frame, exactly when the sphere has
    [lat_bands = 0], or [lat_bands >= 1] and [long_bands = 0], or one of
    the three rings has zero segments.  Otherwise it raises [SystemExit]
    exactly when the feed holds a [QUIT] event, and otherwise it runs every
    frame of the feed. *)
Theorem main_outcome (g : globals) (rng : nat -> R) (ctx0 : gl_ctx)
    (feed : list (list event)) :
  (main g rng ctx0 feed = raise ZeroDivisionError <-> divides_by_zero g) /\
  (main g rng ctx0 feed = raise SystemExit <->
   ~ divides_by_zero g /\ has_quit feed = true) /\
  ((exists s, main g rng ctx0 feed = ok s) <->
   ~ divides_by_zero g /\ has_quit feed = false).
Proof.
  unfold main.
  destruct (create_scene_cases g rng) as [[B E]|[B [sc E]]]; rewrite E;
    unfold ok, raise in *; cbn [bind].
  - split; [split; [intros _; exact B|reflexivity]|].
    split; split.
    + discriminate.
    + intros [NB _]; contradiction.
    + intros [s Hs]; discriminate.
    + intros [NB _]; contradiction.
  - destruct (main_loop_cases g sc feed (initial_camera, setup_gl ctx0))
      as [[Q L]|[Q [s L]]]; unfold ok, raise in L; rewrite L.
    + split; [split; [discriminate|intros; contradiction]|].
      split; split.
      * intros _; split; assumption.
      * reflexivity.
      * intros [s Hs]; discriminate.
      * intros [_ Hq]; congruence.
    + split; [split; [discriminate|intros; contradiction]|].
      split; split.
      * discriminate.
      * intros [_ Hq]; congruence.
      * intros _; split; assumption.
      * intros _; exists s; reflexivity.
Qed.

Lemma main_loop_raises_iff_witness :
  main_loop module_globals
    {| sphere_vertices := []; sphere_normals := []; sphere_indices := [];
       ring_vertices := []; ring_indices := [];
       additional_ring_vertices := []; additional_ring_indices := [];
       horizontal_ring_vertices := []; horizontal_ring_indices := [];
       stars := [] |}
    [[]; [(MOUSEMOTION, (1, 1)%Z); (QUIT, (1, 1)%Z)]; []]
    (initial_camera, default_ctx) = raise SystemExit.
Proof.
  apply (main_loop_raises_iff module_globals _
           [[]; [(MOUSEMOTION, (1, 1)%Z); (QUIT, (1, 1)%Z)]; []]
           initial_camera default_ctx SystemExit).
  split; reflexivity.
Defined.

Lemma main_outcome_witness :
  exists s,
    main module_globals (fun _ => 0) default_ctx
      [[(MOUSEBUTTONDOWN 1, (5, 5)%Z)]; [(MOUSEMOTION, (9, 5)%Z)]] = ok s.
Proof.
  apply (main_outcome module_globals (fun _ => 0) default_ctx
           [[(MOUSEBUTTONDOWN 1, (5, 5)%Z)]; [(MOUSEMOTION, (9, 5)%Z)]]).
  split; [|reflexivity].
  unfold divides_by_zero, sphere_divides_by_zero; simpl.
  intros [[H|[_ H]]|[H|[H|H]]]; discriminate H.
Defined.

(** ** The rotation state in binary64 *)

Lemma last_cons {A : Type} (x d : A) (l : list A) :
  last (x :: l) d = last l x.
Proof.
  revert x d; induction l as [|y l IH]; intros x d; [reflexivity|].
  change (last (x :: y :: l) d) with (last (y :: l) d).
  rewrite !IH; reflexivity.
Qed.

Lemma for_each_app {A S : Type} (xs ys : list A) (body : A -> S -> result S)
    (s : S) :
  for_each (xs ++ ys) body s = bind (for_each xs body s) (for_each ys body).
Proof.
  revert s; induction xs as [|x xs IH]; intros s; simpl; [reflexivity|].
  destruct (body x s) as [e|s']; simpl; [reflexivity|apply IH].
Qed.

Module Binary64Facts.

Import Floats.
Import Binary64.
Set Warnings "-inexact-float".
Local Open Scope float_scope.

Lemma handle_event_idle_b64 (ev : event) (c : camera) :
  mouse_down c = false ->
  negb (presses_primary ev) && negb (quits ev) = true ->
  handle_event ev c = ok c.
Proof.
  intros Hup Hev; destruct ev as [[| b | b | |] pos];
    unfold presses_primary, quits in Hev; simpl in Hev; simpl;
    try discriminate; try reflexivity.
  - destruct (b =? 1)%Z; [discriminate|reflexivity].
  - destruct (b =? 1)%Z; [|reflexivity].
    destruct c; simpl in Hup; subst; reflexivity.
  - rewrite Hup; reflexivity.
Qed.

Lemma events_idle_b64 (events : list event) (c : camera) :
  mouse_down c = false -> idle_frame events = true ->
  for_each events handle_event c = ok c.
Proof.
  intros Hup; induction events as [|ev events IH]; simpl; intros H;
    [reflexivity|].
  apply andb_prop in H as [Hev Hrest].
  rewrite handle_event_idle_b64 by assumption; simpl; apply IH; assumption.
Qed.

Lemma handle_event_inert_b64 (ev : event) (c : camera) :
  inert ev = true -> handle_event ev c = ok c.
Proof.
  destruct ev as [[| b | b | |] pos]; unfold inert; simpl;
    try discriminate; try reflexivity;
    destruct (b =? 1)%Z; try discriminate; reflexivity.
Qed.

Lemma events_inert_b64 (events : list event) (c : camera) :
  forallb inert events = true -> for_each events handle_event c = ok c.
Proof.
  induction events as [|ev events IH]; cbn [forallb for_each]; intros H;
    [reflexivity|].
  apply andb_prop in H as [Hev Hrest].
  rewrite handle_event_inert_b64 by exact Hev; cbn [bind ok]; apply IH, Hrest.
Qed.

Lemma update_rotation_at_rest (a : float) (p : Z * Z) :
  update_rotation
    {| rot_x := a; rot_y := 0; rot_x_velocity := 0; rot_y_velocity := 0;
       mouse_down := false; last_mouse_pos := p |} =
  {| rot_x := ambient_step a; rot_y := 0;
     rot_x_velocity := 0; rot_y_velocity := 0;
     mouse_down := false; last_mouse_pos := p |}.
Proof. reflexivity. Qed.

Lemma main_loop_at_rest (feed : list (list event)) (a : float) (p : Z * Z) :
  idle_feed feed = true ->
  main_loop feed
    {| rot_x := a; rot_y := 0; rot_x_velocity := 0; rot_y_velocity := 0;
       mouse_down := false; last_mouse_pos := p |} =
  ok {| rot_x := Nat.iter (length feed) ambient_step a; rot_y := 0;
        rot_x_velocity := 0; rot_y_velocity := 0;
        mouse_down := false; last_mouse_pos := p |}.
Proof.
  unfold main_loop.
  revert a; induction feed as [|events feed IH]; intros a Hidle;
    [reflexivity|].
  simpl in Hidle; apply andb_prop in Hidle as [Hev Hrest].
  cbn [for_each]; unfold frame at 1.
  rewrite events_idle_b64 by (reflexivity || exact Hev).
  cbn [bind ok]; rewrite update_rotation_at_rest.
  fold (@ok camera); rewrite IH by exact Hrest.
  change (length (events :: feed)) with (S (length feed)).
  rewrite Nat.iter_succ_r; reflexivity.
Qed.

(** C9, as amended.  If no event ever presses the primary button (and none
    asks to quit), the loop completes every frame of the feed, and after
    its [k] frames both angular velocities are exactly 0, [rot_y] is
    exactly 0, and [rot_x] is what [k] rounds of the two additions of the
    loop, [rot_x += 0] and [rot_x += 0.02], make of 0 in binary64.  That
    value is equal to [k * 0.02] for [k <= 5] and within [1e-12] of it for
    every [k <= 1000]. *)
Theorem never_pressed_binary64 :
  (forall feed,
     idle_feed feed = true ->
     exists c,
       main_loop feed initial_camera = ok c /\
       rot_x_velocity c = 0 /\
       rot_y_velocity c = 0 /\
       rot_y c = 0 /\
       mouse_down c = false /\
       rot_x c = Nat.iter (length feed) ambient_step 0) /\
  forallb
    (fun k =>
       PrimFloat.eqb (Nat.iter k ambient_step 0)
         (of_int (Z.of_nat k) * camera_rotation_speed))
    (seq 0 6) = true /\
  forallb
    (fun k =>
       PrimFloat.leb
         (abs (Nat.iter k ambient_step 0 -
               of_int (Z.of_nat k) * camera_rotation_speed))
         1e-12)
    (seq 0 1001) = true.
Proof.
  split.
  - intros feed Hidle; eexists.
    split; [apply main_loop_at_rest; exact Hidle|].
    repeat split.
  - split; vm_compute; reflexivity.
Qed.

Lemma never_pressed_binary64_witness :
  exists c,
    main_loop
      [[]; [(MOUSEMOTION, (7, 9)%Z)]; [(MOUSEBUTTONDOWN 3, (7, 9)%Z)];
       [(MOUSEBUTTONUP 1, (7, 9)%Z)]; [(OTHER, (0, 0)%Z)]; []]
      initial_camera = ok c /\
    rot_x_velocity c = 0 /\
    rot_y_velocity c = 0 /\
    rot_y c = 0 /\
    mouse_down c = false /\
    rot_x c = 0.12000000000000001.
Proof.
  destruct never_pressed_binary64 as [H _].
  exact (H [[]; [(MOUSEMOTION, (7, 9)%Z)]; [(MOUSEBUTTONDOWN 3, (7, 9)%Z)];
            [(MOUSEBUTTONUP 1, (7, 9)%Z)]; [(OTHER, (0, 0)%Z)]; []]
           eq_refl).
Defined.

(** C9, the claim as written, fails after six frames without any event:
    the loop has added 0.02 six times and [rot_x] is 0.12000000000000001,
    while [6 * 0.02] is 0.12; the two floats are different, and [==] on
    them is false. *)
Lemma never_pressed_six_frames :
  exists c,
    main_loop [[]; []; []; []; []; []] initial_camera = ok c /\
    rot_x_velocity c = 0 /\
    rot_y_velocity c = 0 /\
    rot_y c = 0 /\
    rot_x c = 0.12000000000000001 /\
    of_int 6 * camera_rotation_speed = 0.12 /\
    PrimFloat.eqb (rot_x c) (of_int 6 * camera_rotation_speed) = false /\
    rot_x c <> of_int 6 * camera_rotation_speed.
Proof.
  eexists; split; [vm_compute; reflexivity|].
  cbn [rot_x rot_y rot_x_velocity rot_y_velocity].
  repeat (split; [vm_compute; reflexivity|]).
  intros H.
  assert (E : PrimFloat.eqb 0.12000000000000001
                (of_int 6 * camera_rotation_speed) = false)
    by (vm_compute; reflexivity).
  rewrite H in E; vm_compute in E; discriminate E.
Qed.

Lemma update_rotation_held (c : camera) :
  mouse_down c = true ->
  update_rotation c =
  {| rot_x := rot_x c + rot_x_velocity c;
     rot_y := rot_y c + rot_y_velocity c;
     rot_x_velocity := rot_x_velocity c;
     rot_y_velocity := rot_y_velocity c;
     mouse_down := true;
     last_mouse_pos := last_mouse_pos c |}.
Proof. intros H; destruct c; simpl in H; subst; reflexivity. Qed.

(** X20.  While the primary button stays down and the frames hold only
    events the handler ignores, the frames apply neither decay nor the
    ambient rotation: after [k] such frames the two velocities and the
    sampled position are unchanged, and each angle is what [k] additions
    of its velocity make of it in binary64. *)
Theorem held_frames_binary64 (feed : list (list event)) (c : camera) :
  mouse_down c = true ->
  forallb (forallb inert) feed = true ->
  exists c',
    main_loop feed c = ok c' /\
    rot_x_velocity c' = rot_x_velocity c /\
    rot_y_velocity c' = rot_y_velocity c /\
    rot_x c' =
      Nat.iter (length feed) (fun a => a + rot_x_velocity c) (rot_x c) /\
    rot_y c' =
      Nat.iter (length feed) (fun a => a + rot_y_velocity c) (rot_y c) /\
    mouse_down c' = true /\
    last_mouse_pos c' = last_mouse_pos c.
Proof.
  unfold main_loop.
  revert c; induction feed as [|events feed IH]; intros c Hdown H.
  - exists c; repeat split; assumption.
  - cbn [forallb] in H; apply andb_prop in H as [Hev Hrest].
    cbn [for_each]; unfold frame at 1.
    rewrite events_inert_b64 by exact Hev; cbn [bind ok].
    rewrite update_rotation_held by exact Hdown.
    match goal with
    | |- context [for_each feed frame ?c1] =>
        destruct (IH c1 eq_refl Hrest)
          as (c' & E & Hx & Hy & Hrx & Hry & Hd & Hp)
    end.
    cbn [rot_x rot_y rot_x_velocity rot_y_velocity last_mouse_pos]
      in Hx, Hy, Hrx, Hry, Hp.
    exists c'; split; [exact E|].
    change (length (events :: feed)) with (S (length feed)).
    rewrite !Nat.iter_succ_r.
    repeat split; assumption.
Qed.

Lemma held_frames_binary64_witness :
  exists c',
    main_loop [[]; [(OTHER, (0, 0)%Z)]; [(MOUSEBUTTONUP 3, (0, 0)%Z)]]
      {| rot_x := 1; rot_y := 2; rot_x_velocity := 0.1; rot_y_velocity := 0.25;
         mouse_down := true; last_mouse_pos := (4, 5)%Z |} = ok c' /\
    rot_x_velocity c' = 0.1 /\
    rot_y_velocity c' = 0.25 /\
    rot_x c' = 1.3000000000000003 /\
    rot_y c' = 2.75 /\
    mouse_down c' = true /\
    last_mouse_pos c' = (4, 5)%Z.
Proof.
  exact (held_frames_binary64
           [[]; [(OTHER, (0, 0)%Z)]; [(MOUSEBUTTONUP 3, (0, 0)%Z)]]
           {| rot_x := 1; rot_y := 2; rot_x_velocity := 0.1;
              rot_y_velocity := 0.25;
              mouse_down := true; last_mouse_pos := (4, 5)%Z |}
           eq_refl eq_refl).
Defined.

Lemma drag_moves_b64 (ps : list (Z * Z)) (c : camera) :
  mouse_down c = true ->
  exists c',
    for_each (motions ps) handle_event c = ok c' /\
    last_mouse_pos c' = last ps (last_mouse_pos c) /\
    (rot_x_velocity c', rot_y_velocity c') =
      accumulate (rot_x_velocity c) (rot_y_velocity c) (last_mouse_pos c) ps /\
    rot_x c' = rot_x c /\ rot_y c' = rot_y c /\ mouse_down c' = true.
Proof.
  revert c; induction ps as [|[mx my] ps IH]; intros c Hdown.
  - exists c; repeat split; assumption.
  - cbn [motions map for_each handle_event]; rewrite Hdown; cbn [bind ok].
    fold (motions ps).
    match goal with
    | |- context [for_each (motions ps) handle_event ?c1] =>
        destruct (IH c1 eq_refl) as (c' & E & Hp & Hv & Hrx & Hry & Hd)
    end.
    cbn [last_mouse_pos rot_x_velocity rot_y_velocity rot_x rot_y]
      in Hp, Hv, Hrx, Hry.
    exists c'; rewrite last_cons; cbn [accumulate].
    repeat split; assumption.
Qed.

(** X23.  A whole drag inside one frame (press of the primary button at
    [p0], a run of pointer moves, release) leaves the camera with the
    button up, the last position of the run as the sampled position, and
    each velocity equal to what the moves accumulate on its old value,
    each move measured from the position before it and the first from
    [p0], times [deceleration].  The position an earlier drag left behind
    plays no part, the release resets nothing, and the decay of the frame
    applies to the momentum just added. *)
Theorem drag_within_frame_binary64 (c : camera) (p0 q : Z * Z)
    (ps : list (Z * Z)) :
  exists c',
    frame ((MOUSEBUTTONDOWN 1, p0) :: motions ps ++ [(MOUSEBUTTONUP 1, q)])
      c = ok c' /\
    mouse_down c' = false /\
    last_mouse_pos c' = last ps p0 /\
    rot_x_velocity c' =
      fst (accumulate (rot_x_velocity c) (rot_y_velocity c) p0 ps) *
      deceleration /\
    rot_y_velocity c' =
      snd (accumulate (rot_x_velocity c) (rot_y_velocity c) p0 ps) *
      deceleration /\
    rot_x c' = rot_x c + rot_x_velocity c' + camera_rotation_speed /\
    rot_y c' = rot_y c + rot_y_velocity c'.
Proof.
  unfold frame; cbn [for_each handle_event Z.eqb Pos.eqb bind ok].
  rewrite for_each_app.
  match goal with
  | |- context [for_each (motions ps) handle_event ?c1] =>
      destruct (drag_moves_b64 ps c1 eq_refl)
        as (c2 & E & Hp & Hv & Hrx & Hry & Hd)
  end.
  cbn [last_mouse_pos rot_x_velocity rot_y_velocity rot_x rot_y]
    in Hp, Hv, Hrx, Hry.
  rewrite E; unfold ok at 1; cbn [bind for_each handle_event Z.eqb Pos.eqb].
  unfold ok at 1; cbn [bind].
  eexists; split; [reflexivity|].
  rewrite <- Hv; cbn [fst snd].
  unfold update_rotation;
    cbn [mouse_down negb rot_x_velocity rot_y_velocity rot_x rot_y
         last_mouse_pos].
  rewrite Hp, Hrx, Hry; repeat split.
Qed.

End Binary64Facts.
